(** * An asynchronous WebSocket echo server: model and verified properties

    The program (src/Sources/main.cpp) is a completion-handler state machine
    on top of Boost.Asio / Boost.Beast: a [listener] accepts TCP connections
    and starts one [session] per connection; a session performs the WebSocket
    handshake and then echoes every message it reads.

    The embedding keeps the shape of the code.  Every member function is a
    computation in a small state-and-trace monad: the state is the object
    the member function belongs to, the trace is the list of externally
    visible effects it performs (text written to [std::cerr], asynchronous
    operations it initiates, calls on the acceptor, threads it starts).  The
    Asio/Beast libraries are the environment: they decide with which error
    code an operation completes and what a read delivers, and they invoke
    the handler that was bound when the operation was initiated.

    Handlers of one session run on that session's strand and the listener has
    a single handler chain, so the model runs each handler atomically. *)

From Stdlib Require Import ZArith String List Bool Lia.
From Stdlib.Strings Require Import Byte.
From stdpp Require Import base list strings.

Local Open Scope list_scope.

(** ** Error codes *)

(** [beast::error_code]: an integer value and the category it belongs to. *)
Inductive error_category :=
| system_category
| generic_category
| websocket_category
| misc_category (id : nat).

Record error_code := mk_error_code {
  ec_value : Z;
  ec_category : error_category
}.

#[global] Instance error_category_eq_dec : EqDecision error_category.
Proof. solve_decision. Defined.

#[global] Instance error_code_eq_dec : EqDecision error_code.
Proof. solve_decision. Defined.

(** A default constructed [beast::error_code ec;]. *)
Definition no_error : error_code := mk_error_code 0%Z system_category.

(** [if (ec)]: the contextual conversion to bool, true when the value is
    not zero. *)
Definition ec_failed (ec : error_code) : bool := negb (ec_value ec =? 0)%Z.

(** [websocket::error::closed], the first enumerator of Beast's websocket
    error enumeration. *)
Definition websocket_error_closed : error_code :=
  mk_error_code 1%Z websocket_category.

(** ** What the program takes from its platform

    Library functions the program calls whose results it only passes on. *)
Inductive ip_address := ip_addr (repr : string).

Class Platform := {
  (** [ec.message()] *)
  message : error_code -> string;
  (** [std::atoi] *)
  atoi : string -> Z;
  (** [net::ip::make_address]; [None] when it throws *)
  make_address : string -> option ip_address;
  (** the macro [BOOST_BEAST_VERSION_STRING] *)
  BOOST_BEAST_VERSION_STRING : string
}.

(** ** Effects *)

Record endpoint := mk_endpoint { ep_address : ip_address; ep_port : Z }.

(** A connected socket, named by its descriptor. *)
Definition socket := nat.

(** Asynchronous operations.  Each is initiated together with the handler
    that its completion invokes; the program binds a fixed handler to each
    kind of operation, so the kind determines the handler. *)
Inductive async_op :=
| tcp_accept                                   (* _acceptor.async_accept, completes in listener::on_accept *)
| ws_handshake                                 (* _ws.async_accept, completes in session::on_accept *)
| ws_read (into : list byte)                   (* _ws.async_read(_buffer, ...), completes in session::on_read;
                                                  [into]: the bytes in the buffer when the read is started *)
| ws_write (data : list byte) (text : bool).   (* _ws.async_write, completes in session::on_write *)

#[global] Instance byte_eq_dec : EqDecision byte.
Proof. intros x y. destruct (Byte.byte_eq_dec x y); [left|right]; assumption. Defined.

#[global] Instance async_op_eq_dec : EqDecision async_op.
Proof. solve_decision. Defined.

Inductive io :=
| cerr (text : string)              (* std::cerr << text *)
| initiate (op : async_op)          (* an asynchronous operation is started *)
| acceptor_open
| acceptor_set_reuse_address
| acceptor_bind (ep : endpoint)
| acceptor_listen
| thread_start.                     (* std::thread running ioc.run() *)

(** The asynchronous operations started in a trace, in order. *)
Definition initiated (tr : list io) : list async_op :=
  omap (fun e => match e with initiate op => Some op | _ => None end) tr.

(** The text written to [std::cerr] in a trace, in order. *)
Definition logged (tr : list io) : list string :=
  omap (fun e => match e with cerr s => Some s | _ => None end) tr.

(** ** The monad of member functions: state of [this] and a trace *)

Definition Act (St A : Type) : Type := St -> A * St * list io.

#[global] Instance Act_ret {St} : MRet (Act St) :=
  fun A a s => (a, s, []).

#[global] Instance Act_bind {St} : MBind (Act St) :=
  fun A B k m s =>
    let '(a, s1, t1) := m s in
    let '(b, s2, t2) := k a s1 in
    (b, s2, t1 ++ t2).

Notation "x <- y ;; z" := (mbind (fun x => z) y)
  (at level 20, y at level 99, z at level 200, only parsing) : stdpp_scope.

Definition emit {St} (e : io) : Act St unit := fun s => (tt, s, [e]).
Definition gets {St A} (f : St -> A) : Act St A := fun s => (f s, s, []).
Definition modify {St} (f : St -> St) : Act St unit := fun s => (tt, f s, []).
Definition skip {St} : Act St unit := mret tt.

Definition state_of {St A} (r : A * St * list io) : St := snd (fst r).
Definition trace_of {St A} (r : A * St * list io) : list io := snd r.

Definition newline : string := String (Ascii.ascii_of_nat 10) EmptyString.

(** [void fail(beast::error_code ec, char const *what)] *)
Definition fail `{Platform} {St} (ec : error_code) (what : string) : Act St unit :=
  emit (cerr (what +:+ ": " +:+ message ec +:+ newline)).

(** Retire the first outstanding operation of a given kind: the operation
    whose completion is being delivered.  [None] when there is none. *)
Fixpoint retire (p : async_op -> bool) (l : list async_op) : option (list async_op) :=
  match l with
  | [] => None
  | o :: l' => if p o then Some l' else option_map (cons o) (retire p l')
  end.

Definition is_accept (o : async_op) : bool :=
  match o with tcp_accept => true | _ => false end.
Definition is_handshake (o : async_op) : bool :=
  match o with ws_handshake => true | _ => false end.
Definition is_read (o : async_op) : bool :=
  match o with ws_read _ => true | _ => false end.
Definition is_write (o : async_op) : bool :=
  match o with ws_write _ _ => true | _ => false end.

(** ** class session *)

Module session.

Inductive role_type := client | server.

(** [websocket::stream<beast::tcp_stream>]: the part of its state the
    program sets or reads. *)
Record stream := mk_stream {
  next_layer : socket;
  timeout_suggested : option role_type;   (* set_option(timeout::suggested(role)) *)
  server_field : option string;           (* what the decorator sets in the response *)
  text_mode : bool;                       (* text(bool): outgoing messages are text *)
  got_text_flag : bool                    (* got_text(): the last message read was text *)
}.

(** [beast::flat_buffer]: its readable bytes. *)
Definition flat_buffer := list byte.
Definition size (b : flat_buffer) : nat := length b.
Definition consume (n : nat) (b : flat_buffer) : flat_buffer := drop n b.

Record t := mk {
  _ws : stream;
  _buffer : flat_buffer
}.

Definition with_ws (f : stream -> stream) (s : t) : t :=
  mk (f (_ws s)) (_buffer s).
Definition with_buffer (f : flat_buffer -> flat_buffer) (s : t) : t :=
  mk (_ws s) (f (_buffer s)).

Definition set_timeout (r : role_type) (w : stream) : stream :=
  mk_stream (next_layer w) (Some r) (server_field w) (text_mode w) (got_text_flag w).
Definition set_decorator (v : string) (w : stream) : stream :=
  mk_stream (next_layer w) (timeout_suggested w) (Some v) (text_mode w) (got_text_flag w).
Definition set_text (b : bool) (w : stream) : stream :=
  mk_stream (next_layer w) (timeout_suggested w) (server_field w) b (got_text_flag w).
Definition set_got_text (b : bool) (w : stream) : stream :=
  mk_stream (next_layer w) (timeout_suggested w) (server_field w) (text_mode w) b.

(** [explicit session(tcp::socket &&socket) : _ws(std::move(socket))]:
    a fresh stream (Beast's defaults: text mode) and an empty buffer. *)
Definition create (sock : socket) : t :=
  mk (mk_stream sock None None true true) [].

(** [_ws.async_write(_buffer.data(), ...)]: the message is written with
    the stream's current text/binary setting.  [_buffer.data()] refers to
    the session's buffer; the session touches the buffer again only in the
    handler of this write, so the operation carries the bytes as they are
    now. *)
Definition async_write (data : list byte) : Act t unit :=
  b <- gets (fun s => text_mode (_ws s)) ;;
  emit (initiate (ws_write data b)).

(** [_ws.async_read(_buffer, ...)]: the read is started on the session's
    buffer as it is at this point. *)
Definition do_read : Act t unit :=
  b <- gets _buffer ;;
  emit (initiate (ws_read b)).

Definition run `{Platform} : Act t unit :=
  modify (with_ws (set_timeout server)) ;;
  modify (with_ws (set_decorator
            (BOOST_BEAST_VERSION_STRING +:+ " websocket-server-async"))) ;;
  emit (initiate ws_handshake).

Definition on_accept `{Platform} (ec : error_code) : Act t unit :=
  if ec_failed ec then fail ec "accept"
  else do_read.

Definition on_read `{Platform} (ec : error_code) (bytes_transferred : nat) : Act t unit :=
  if decide (ec = websocket_error_closed) then skip
  else
    (if ec_failed ec then fail ec "read" else skip) ;;
    (g <- gets (fun s => got_text_flag (_ws s)) ;;
     modify (with_ws (set_text g))) ;;
    d <- gets _buffer ;;
    async_write d.

Definition on_write `{Platform} (ec : error_code) (bytes_transferred : nat) : Act t unit :=
  if ec_failed ec then fail ec "write"
  else
    (n <- gets (fun s => size (_buffer s)) ;;
     modify (with_buffer (consume n))) ;;
    do_read.

(** *** The session as the io_context sees it

    A session object together with the operations it has outstanding.  The
    handlers hold the only references to the session
    ([shared_from_this]), so a session with nothing outstanding is
    destroyed: that is the state the specification calls Closed. *)
Record cfg := mk_cfg {
  obj : t;
  pending : list async_op
}.

Definition closed (c : cfg) : Prop := pending c = [].

(** Completions the Beast stream delivers to a session. *)
Inductive completion :=
| handshake_done (ec : error_code)
| read_done (ec : error_code) (received : list byte) (is_text : bool)
| write_done (ec : error_code) (bytes_transferred : nat).

(** What [async_read] has done to the session when it completes: the
    bytes received are appended to the buffer the read was started on, the
    session's own, and the stream remembers whether the message was
    text. *)
Definition received_into (received : list byte) (is_text : bool) (s : t) : t :=
  with_ws (set_got_text is_text) (with_buffer (fun b => b ++ received) s).

(** Run a handler on the object, with [rest] the operations still
    outstanding; the operations the handler starts become outstanding. *)
Definition invoke (h : Act t unit) (s : t) (rest : list async_op) : cfg * list io :=
  let r := h s in
  (mk_cfg (state_of r) (rest ++ initiated (trace_of r)), trace_of r).

(** [std::make_shared<session>(std::move(socket))->run()] *)
Definition start `{Platform} (sock : socket) : cfg * list io :=
  invoke run (create sock) [].

(** Deliver one completion.  A completion for which no operation is
    outstanding cannot occur and is ignored. *)
Definition deliver `{Platform} (c : cfg) (ev : completion) : cfg * list io :=
  match ev with
  | handshake_done ec =>
      match retire is_handshake (pending c) with
      | Some rest => invoke (on_accept ec) (obj c) rest
      | None => (c, [])
      end
  | read_done ec received is_text =>
      match retire is_read (pending c) with
      | Some rest =>
          invoke (on_read ec (length received))
                 (received_into received is_text (obj c)) rest
      | None => (c, [])
      end
  | write_done ec n =>
      match retire is_write (pending c) with
      | Some rest => invoke (on_write ec n) (obj c) rest
      | None => (c, [])
      end
  end.

(** Deliver a sequence of completions, collecting the trace. *)
Fixpoint deliver_all `{Platform} (c : cfg) (evs : list completion) : cfg * list io :=
  match evs with
  | [] => (c, [])
  | ev :: evs' =>
      let '(c1, t1) := deliver c ev in
      let '(c2, t2) := deliver_all c1 evs' in
      (c2, t1 ++ t2)
  end.

(** The life of a session from its construction. *)
Definition execution `{Platform} (sock : socket) (evs : list completion) : cfg * list io :=
  let '(c0, t0) := start sock in
  let '(c, t) := deliver_all c0 evs in
  (c, t0 ++ t).

End session.

(** ** The TCP acceptor *)

Module tcp.

(** [tcp::acceptor]: the part of its state the setup calls change. *)
Record acceptor := mk_acceptor {
  is_open : bool;
  reuse_address : bool;
  local_endpoint : option endpoint;
  listening : bool
}.

Definition closed_acceptor : acceptor := mk_acceptor false false None false.

(** The error code each setup call reports through its [ec] argument if
    it is made; the operating system decides them. *)
Record setup_outcomes := mk_outcomes {
  open_ec : error_code;
  set_option_ec : error_code;
  bind_ec : error_code;
  listen_ec : error_code
}.

Definition opened (a : acceptor) : acceptor :=
  mk_acceptor true (reuse_address a) (local_endpoint a) (listening a).
Definition reusing (a : acceptor) : acceptor :=
  mk_acceptor (is_open a) true (local_endpoint a) (listening a).
Definition bound (ep : endpoint) (a : acceptor) : acceptor :=
  mk_acceptor (is_open a) (reuse_address a) (Some ep) (listening a).
Definition listened (a : acceptor) : acceptor :=
  mk_acceptor (is_open a) (reuse_address a) (local_endpoint a) true.

(** A setup call: it is recorded in the trace, changes the acceptor when
    it succeeds, and yields its error code. *)
Definition call (e : io) (ec : error_code) (ok : acceptor -> acceptor)
  : Act acceptor error_code :=
  emit e ;;
  (if ec_failed ec then skip else modify ok) ;;
  mret ec.

End tcp.

(** [net::io_context]: the sessions whose handlers it holds. *)
Record io_context := mk_ioc {
  concurrency_hint : Z;
  sessions : list session.cfg
}.

(** ** class listener *)

Module listener.

(** The listener refers to the io_context of [main]; the model keeps the
    one io_context here and [main] reaches it through the listener. *)
Record t := mk {
  _ioc : io_context;
  _acceptor : tcp.acceptor
}.

(** Run a computation on the acceptor member. *)
Definition on_acceptor {A} (m : Act tcp.acceptor A) : Act t A :=
  fun l => let '(a, acc, tr) := m (_acceptor l) in (a, mk (_ioc l) acc, tr).

(** The body of the constructor
    [listener(net::io_context &ioc, tcp::endpoint endpoint)]. *)
Definition setup `{Platform} (env : tcp.setup_outcomes) (endpoint : endpoint) : Act t unit :=
  ec <- on_acceptor (tcp.call acceptor_open (tcp.open_ec env) tcp.opened) ;;
  if ec_failed ec then fail ec "open"
  else
    ec <- on_acceptor (tcp.call acceptor_set_reuse_address
                                (tcp.set_option_ec env) tcp.reusing) ;;
    if ec_failed ec then fail ec "set_option"
    else
      ec <- on_acceptor (tcp.call (acceptor_bind endpoint)
                                  (tcp.bind_ec env) (tcp.bound endpoint)) ;;
      if ec_failed ec then fail ec "bind"
      else
        ec <- on_acceptor (tcp.call acceptor_listen
                                    (tcp.listen_ec env) tcp.listened) ;;
        if ec_failed ec then fail ec "listen"
        else skip.

Definition construct `{Platform} (env : tcp.setup_outcomes)
           (ioc : io_context) (endpoint : endpoint) : t * list io :=
  let r := setup env endpoint (mk ioc tcp.closed_acceptor) in
  (state_of r, trace_of r).

Definition do_accept : Act t unit :=
  emit (initiate tcp_accept).

Definition run : Act t unit := do_accept.

(** [std::make_shared<session>(std::move(socket))->run()]: the new
    session lives in the io_context from now on. *)
Definition spawn `{Platform} (sock : socket) : Act t unit :=
  fun l =>
    let '(c, tr) := session.start sock in
    (tt, mk (mk_ioc (concurrency_hint (_ioc l)) (sessions (_ioc l) ++ [c]))
            (_acceptor l), tr).

Definition on_accept `{Platform} (ec : error_code) (sock : socket) : Act t unit :=
  (if ec_failed ec then fail ec "accept"
   else spawn sock) ;;
  do_accept.

(** The listener with the accept operations it has outstanding. *)
Record cfg := mk_cfg {
  obj : t;
  pending : list async_op
}.

(** Run a handler on the listener, with [rest] the accepts still
    outstanding.  Of the operations started meanwhile, those on the
    acceptor are the listener's; the others belong to the session the
    handler has started. *)
Definition invoke (h : Act t unit) (l : t) (rest : list async_op) : cfg * list io :=
  let r := h l in
  (mk_cfg (state_of r) (rest ++ List.filter is_accept (initiated (trace_of r))),
   trace_of r).

End listener.

(** ** The io_context at work *)

(** Completions the io_context dispatches: of the listener's accept, or of
    an operation of the session created [i]-th. *)
Inductive completion :=
| accept_done (ec : error_code) (sock : socket)
| session_done (i : nat) (ev : session.completion).

Definition set_sessions (ss : list session.cfg) (w : listener.cfg) : listener.cfg :=
  listener.mk_cfg
    (listener.mk (mk_ioc (concurrency_hint (listener._ioc (listener.obj w))) ss)
                 (listener._acceptor (listener.obj w)))
    (listener.pending w).

Definition live_sessions (w : listener.cfg) : list session.cfg :=
  sessions (listener._ioc (listener.obj w)).

(** Dispatch one completion to the handler bound to it. *)
Definition dispatch `{Platform} (w : listener.cfg) (ev : completion) : listener.cfg * list io :=
  match ev with
  | accept_done ec sock =>
      match retire is_accept (listener.pending w) with
      | Some rest => listener.invoke (listener.on_accept ec sock) (listener.obj w) rest
      | None => (w, [])
      end
  | session_done i sev =>
      match live_sessions w !! i with
      | Some c =>
          let '(c', tr) := session.deliver c sev in
          (set_sessions (<[i := c']> (live_sessions w)) w, tr)
      | None => (w, [])
      end
  end.

(** The io_context has work as long as some operation is outstanding. *)
Definition out_of_work (w : listener.cfg) : bool :=
  bool_decide (listener.pending w = []) &&
  forallb (fun c => bool_decide (session.pending c = [])) (live_sessions w).

(** [ioc.run()]: dispatch completions until no work is left.  The result
    tells whether [run] returned after the given completions. *)
Fixpoint ioc_run `{Platform} (w : listener.cfg) (evs : list completion)
  : listener.cfg * list io * bool :=
  if out_of_work w then (w, [], true)
  else
    match evs with
    | [] => (w, [], false)
    | ev :: evs' =>
        let '(w1, t1) := dispatch w ev in
        let '(w2, t2, returned) := ioc_run w1 evs' in
        (w2, t1 ++ t2, returned)
    end.

(** ** main *)

Inductive exit_status := EXIT_SUCCESS | EXIT_FAILURE.

Inductive outcome :=
| exited (status : exit_status)     (* main returned *)
| terminated                        (* std::terminate *)
| serving (w : listener.cfg).       (* still inside ioc.run() *)

Definition usage : string :=
  "Usage: websocket-server <address> <port> <threads>" +:+ newline +:+
  "Example:" +:+ newline +:+
  "    websocket-server 0.0.0.0 8080 1" +:+ newline.

(** [argv[i]] *)
Definition arg (argv : list string) (i : nat) : string := nth i argv EmptyString.

(** [static_cast<unsigned short>] *)
Definition to_unsigned_short (n : Z) : Z := (n mod 2 ^ 16)%Z.

(** [int main(int argc, char *argv[])], with [argc = length argv], run
    against the outcomes of the setup calls and the completions the
    io_context delivers.  [make_address] throws on a malformed address and
    nothing catches it; a [std::thread] still joinable when [v] is
    destroyed terminates the program. *)
Definition main `{Platform} (argv : list string) (env : tcp.setup_outcomes)
           (evs : list completion) : outcome * list io :=
  if negb (length argv =? 4)%nat then
    (exited EXIT_FAILURE, [cerr usage])
  else
    match make_address (arg argv 1) with
    | None => (terminated, [])
    | Some address =>
        let port := to_unsigned_short (atoi (arg argv 2)) in
        let threads := Z.max 1 (atoi (arg argv 3)) in
        let ioc := mk_ioc threads [] in
        let '(l, t1) := listener.construct env ioc (mk_endpoint address port) in
        let '(w, t2) := listener.invoke listener.run l [] in
        let t3 := replicate (Z.to_nat (threads - 1)) thread_start in
        let '(w', t4, returned) := ioc_run w evs in
        (if returned
         then (if (1 <? threads)%Z then terminated else exited EXIT_SUCCESS)
         else serving w',
         t1 ++ t2 ++ t3 ++ t4)
    end.

(** * Notions used to state the properties *)

(** The line [fail] writes for the label [what] and the error [ec]. *)
Definition log_line `{Platform} (what : string) (ec : error_code) : string :=
  what +:+ ": " +:+ message ec +:+ newline.

(** The session after [_ws.text(_ws.got_text())]. *)
Definition mirrored (s : session.t) : session.t :=
  session.with_ws (session.set_text (session.got_text_flag (session._ws s))) s.

(** The write that echoes the buffer of [s]. *)
Definition echo_of (s : session.t) : async_op :=
  ws_write (session._buffer s) (session.got_text_flag (session._ws s)).

(** ** The states of a session *)

Inductive phase := Handshaking | Reading | Echoing | Closed.

(** The configurations a session goes through: at most one operation is
    outstanding, the buffer is empty while the handshake or a read is
    outstanding, an outstanding read was started on the empty buffer, and
    an outstanding write carries the buffer. *)
Inductive in_phase : phase -> session.cfg -> Prop :=
| phase_handshaking s :
    session._buffer s = [] ->
    in_phase Handshaking (session.mk_cfg s [ws_handshake])
| phase_reading s :
    session._buffer s = [] ->
    in_phase Reading (session.mk_cfg s [ws_read []])
| phase_echoing s :
    in_phase Echoing
      (session.mk_cfg s [ws_write (session._buffer s)
                                  (session.text_mode (session._ws s))])
| phase_closed s :
    in_phase Closed (session.mk_cfg s []).

Definition well_formed (c : session.cfg) : Prop := exists p, in_phase p c.

(** The order in which a session may start its operations. *)
Definition next_op (a b : async_op) : bool :=
  match a, b with
  | ws_handshake, ws_read _ => true
  | ws_read _, ws_write _ _ => true
  | ws_write _ _, ws_read _ => true
  | _, _ => false
  end.

Fixpoint chained (prev : async_op) (l : list async_op) : bool :=
  match l with
  | [] => true
  | o :: l' => next_op prev o && chained o l'
  end.

Definition in_order (l : list async_op) : bool :=
  match l with
  | [] => true
  | o :: l' => is_handshake o && chained o l'
  end.

(** One delivery: it is ignored, or it retires the one outstanding
    operation and starts at most one, the next in order. *)
Inductive delivery (c : session.cfg) (r : session.cfg * list io) : Prop :=
| delivery_ignored :
    r = (c, []) -> delivery c r
| delivery_final o :
    session.pending c = [o] ->
    initiated (snd r) = [] ->
    session.pending (fst r) = [] ->
    delivery c r
| delivery_next o o' :
    session.pending c = [o] ->
    initiated (snd r) = [o'] ->
    session.pending (fst r) = [o'] ->
    next_op o o' = true ->
    delivery c r.

(** ** Sample platform and data *)

Definition sample_message (ec : error_code) : string :=
  if decide (ec = websocket_error_closed)
  then "The WebSocket stream was gracefully closed at both endpoints"
  else if (ec_value ec =? 0)%Z then "Success"
  else if (ec_value ec =? 98)%Z then "Address already in use"
  else if (ec_value ec =? 104)%Z then "Connection reset by peer"
  else "Unknown error".

(** Leading decimal digits of a string, as [atoi] reads them. *)
Fixpoint leading_digits (s : string) (acc : Z) : Z :=
  match s with
  | EmptyString => acc
  | String a s' =>
      let n := Z.of_nat (Ascii.nat_of_ascii a) in
      if ((48 <=? n) && (n <=? 57))%Z
      then leading_digits s' (10 * acc + (n - 48))%Z
      else acc
  end.

Definition sample_platform : Platform := {|
  message := sample_message;
  atoi := fun s => leading_digits s 0%Z;
  make_address := fun s => if decide (s = EmptyString) then None else Some (ip_addr s);
  BOOST_BEAST_VERSION_STRING := "Boost.Beast/347"
|}.

Definition connection_reset : error_code := mk_error_code 104%Z system_category.

Definition ping : list byte := [x70; x69; x6e; x67].

(** A session of the sample platform that has completed its handshake and
    waits for its first message. *)
Definition sample_reading : session.cfg :=
  fst (@session.execution sample_platform 5 [session.handshake_done no_error]).

(** The listener once the session [c] has been started in its io_context. *)
Definition with_session (c : session.cfg) (l : listener.t) : listener.t :=
  listener.mk
    (mk_ioc (concurrency_hint (listener._ioc l)) (sessions (listener._ioc l) ++ [c]))
    (listener._acceptor l).

(** The traces of the constructor, by the first setup call that fails. *)
Definition setup_calls (endpoint : endpoint) (n : nat) : list io :=
  take n [acceptor_open; acceptor_set_reuse_address;
          acceptor_bind endpoint; acceptor_listen].

(** The first setup call that fails, with the label under which the
    constructor reports it. *)
Definition first_failure (env : tcp.setup_outcomes) : option (string * error_code) :=
  if ec_failed (tcp.open_ec env) then Some ("open", tcp.open_ec env)
  else if ec_failed (tcp.set_option_ec env) then Some ("set_option", tcp.set_option_ec env)
  else if ec_failed (tcp.bind_ec env) then Some ("bind", tcp.bind_ec env)
  else if ec_failed (tcp.listen_ec env) then Some ("listen", tcp.listen_ec env)
  else None.

Definition sample_argv : list string :=
  ["websocket-server"; "0.0.0.0"; "8080"; "1"].


Definition all_succeed : tcp.setup_outcomes :=
  tcp.mk_outcomes no_error no_error no_error no_error.

Definition sample_listener : listener.t :=
  listener.mk (mk_ioc 1 []) tcp.closed_acceptor.

(** Two sessions in their handshake and the listener accepting. *)
Definition sample_world : listener.cfg :=
  listener.mk_cfg
    (listener.mk
       (mk_ioc 1 [fst (@session.start sample_platform 5);
                  fst (@session.start sample_platform 6)])
       tcp.closed_acceptor)
    [tcp_accept].

Definition sample_echoing : session.t :=
  session.mk (session.mk_stream 5 (Some session.server) None true true) ping.

(** ** Further notions: conversations, the process, the log *)

(** A message as a client sends it: its bytes and whether it is text. *)
Definition message_t : Type := list byte * bool.

(** The completions of a conversation in which everything succeeds with the
    error code [ok]: the handshake, then for each message its read and the
    write of its echo. *)
Definition conversation (ok : error_code) (msgs : list message_t)
  : list session.completion :=
  session.handshake_done ok ::
  flat_map (fun m => [session.read_done ok (fst m) (snd m);
                      session.write_done ok (length (fst m))]) msgs.

(** What a session is expected to do in such a conversation: start the
    handshake, a read, and after each message its echo and the next read. *)
Definition echo_trace (msgs : list message_t) : list io :=
  initiate ws_handshake :: initiate (ws_read []) ::
  flat_map (fun m => [initiate (ws_write (fst m) (snd m)); initiate (ws_read [])]) msgs.

(** The settings [run()] gives the stream of a session over [sock]. *)
Definition configured `{Platform} (sock : socket) (s : session.t) : Prop :=
  session.next_layer (session._ws s) = sock /\
  session.timeout_suggested (session._ws s) = Some session.server /\
  session.server_field (session._ws s)
    = Some (BOOST_BEAST_VERSION_STRING +:+ " websocket-server-async").

(** The socket a session owns. *)
Definition socket_of (c : session.cfg) : socket :=
  session.next_layer (session._ws (session.obj c)).

(** The sockets of the accepts that completed successfully, in order. *)
Definition accepted (evs : list completion) : list socket :=
  omap (fun ev => match ev with
                  | accept_done ec sock => if ec_failed ec then None else Some sock
                  | session_done _ _ => None
                  end) evs.

(** The number of threads started in a trace. *)
Definition started_threads (tr : list io) : nat :=
  length (List.filter (fun e => match e with thread_start => true | _ => false end) tr).

(** The labels under which the program reports failures. *)
Definition labels : list string :=
  ["accept"; "read"; "write"; "open"; "set_option"; "bind"; "listen"].

(** A trace entry is a proper log entry when, if it writes to [std::cerr],
    it writes the usage text or the report of a failed error code under
    one of the labels. *)
Definition log_entry_ok `{Platform} (e : io) : Prop :=
  match e with
  | cerr s =>
      s = usage \/
      exists what ec, In what labels /\ ec_failed ec = true /\ s = log_line what ec
  | _ => True
  end.

(** The acceptor the constructor leaves behind, by the outcomes of the
    setup calls: each call is made, and takes effect, only when all the
    calls before it have succeeded. *)
Definition acceptor_after (env : tcp.setup_outcomes) (ep : endpoint) : tcp.acceptor :=
  let o := negb (ec_failed (tcp.open_ec env)) in
  let r := o && negb (ec_failed (tcp.set_option_ec env)) in
  let b := r && negb (ec_failed (tcp.bind_ec env)) in
  let l := b && negb (ec_failed (tcp.listen_ec env)) in
  tcp.mk_acceptor o r (if b then Some ep else None) l.

(** The number of setup calls the constructor makes: up to and including
    the first that fails. *)
Definition calls_made (env : tcp.setup_outcomes) : nat :=
  if ec_failed (tcp.open_ec env) then 1
  else if ec_failed (tcp.set_option_ec env) then 2
  else if ec_failed (tcp.bind_ec env) then 3
  else 4.

(** The listener as [main] leaves it when it enters [ioc.run()]:
    constructed over the endpoint the arguments give, with the accept of
    [run()] outstanding. *)
Definition startup_world `{Platform} (argv : list string) (env : tcp.setup_outcomes)
           (address : ip_address) : listener.cfg :=
  listener.mk_cfg
    (fst (listener.construct env
            (mk_ioc (Z.max 1 (atoi (arg argv 3))) [])
            (mk_endpoint address (to_unsigned_short (atoi (arg argv 2))))))
    [tcp_accept].

(** Trace entries a completion handler can produce: log lines and started
    operations. *)
Definition from_handler (e : io) : bool :=
  match e with
  | cerr _ | initiate _ => true
  | _ => false
  end.

(** Sample conversation: the text message "ping", then four zero bytes as
    a binary message. *)
Definition sample_messages : list message_t :=
  [(ping, true); ([x00; x00; x00; x00], false)].

(** A session of the sample platform with the echo of "ping" outstanding. *)
Definition sample_writing : list session.completion :=
  [session.handshake_done no_error; session.read_done no_error ping true].

Definition sample_endpoint : endpoint := mk_endpoint (ip_addr "0.0.0.0") 8080%Z.

(** Arguments with a port beyond 16 bits and four threads. *)
Definition wide_argv : list string :=
  ["websocket-server"; "0.0.0.0"; "70000"; "4"].

(** Sample completions: a connection on socket 5, a failed accept, a
    connection on socket 6, and the handshake of the first session. *)
Definition sample_completions : list completion :=
  [accept_done no_error 5; accept_done connection_reset 0;
   accept_done no_error 6; session_done 0 (session.handshake_done no_error)].

(** The completions session [i] receives among those the io_context
    dispatches: the ones addressed to it once it exists.  [n] is the number
    of sessions created so far. *)
Fixpoint session_view (i n : nat) (evs : list completion) : list session.completion :=
  match evs with
  | [] => []
  | accept_done ec _ :: evs' =>
      session_view i (if ec_failed ec then n else S n) evs'
  | session_done j sev :: evs' =>
      if (j =? i)%nat && (i <? n)%nat
      then sev :: session_view i n evs'
      else session_view i n evs'
  end.

(** * Properties *)

(** Unfold the monad so that a member function applied to a state shows
    its result. *)
Ltac run_act :=
  cbv [mbind mret Act_bind Act_ret gets modify emit skip fail
       state_of trace_of session.do_read session.async_write
       listener.do_accept listener.run];
  cbn [app fst snd].

(** Case analysis on whether an error code reports a failure, followed by
    the reduction this enables. *)
Ltac case_outcome ec :=
  let E := fresh "Hec" in
  destruct (ec_failed ec) eqn:E; cbv beta iota zeta; rewrite ?E.

(** ** What each session handler does *)

Section session_handlers.
Context `{Platform}.
Implicit Types (s : session.t) (ec : error_code).

Lemma closed_is_failure : ec_failed websocket_error_closed = true.
Proof. reflexivity. Qed.

Lemma not_failed_not_closed ec :
  ec_failed ec = false -> ec <> websocket_error_closed.
Proof. intros Hok ->. discriminate Hok. Qed.

Lemma on_accept_failure ec s :
  ec_failed ec = true ->
  session.on_accept ec s = (tt, s, [cerr (log_line "accept" ec)]).
Proof. intros Hec. unfold session.on_accept. rewrite Hec. reflexivity. Qed.

Lemma on_accept_success ec s :
  ec_failed ec = false ->
  session.on_accept ec s = (tt, s, [initiate (ws_read (session._buffer s))]).
Proof. intros Hec. unfold session.on_accept. rewrite Hec. reflexivity. Qed.

Lemma on_read_closed n s :
  session.on_read websocket_error_closed n s = (tt, s, []).
Proof. reflexivity. Qed.

Lemma on_read_success ec n s :
  ec_failed ec = false ->
  session.on_read ec n s = (tt, mirrored s, [initiate (echo_of s)]).
Proof.
  intros Hec. unfold session.on_read.
  destruct (decide (ec = websocket_error_closed)) as [->|_]; [discriminate Hec|].
  rewrite Hec. reflexivity.
Qed.

Lemma on_read_failure ec n s :
  ec <> websocket_error_closed ->
  ec_failed ec = true ->
  session.on_read ec n s =
    (tt, mirrored s, [cerr (log_line "read" ec); initiate (echo_of s)]).
Proof.
  intros Hne Hec. unfold session.on_read.
  destruct (decide (ec = websocket_error_closed)) as [->|_]; [congruence|].
  rewrite Hec. reflexivity.
Qed.

Lemma on_write_failure ec n s :
  ec_failed ec = true ->
  session.on_write ec n s = (tt, s, [cerr (log_line "write" ec)]).
Proof. intros Hec. unfold session.on_write. rewrite Hec. reflexivity. Qed.

Lemma on_write_success ec n s :
  ec_failed ec = false ->
  session.on_write ec n s =
    (tt, session.mk (session._ws s) [], [initiate (ws_read [])]).
Proof.
  intros Hec. unfold session.on_write. rewrite Hec.
  run_act. unfold session.with_buffer, session.consume, session.size.
  cbn [session._buffer session._ws]. rewrite drop_all. reflexivity.
Qed.

End session_handlers.

Lemma initiated_app t1 t2 : initiated (t1 ++ t2) = initiated t1 ++ initiated t2.
Proof. unfold initiated. apply omap_app. Qed.


Section session_invariant.
Context `{Platform}.

Lemma start_eq sock :
  session.start sock =
    (session.mk_cfg
       (session.mk
          (session.mk_stream sock (Some session.server)
             (Some (BOOST_BEAST_VERSION_STRING +:+ " websocket-server-async"))
             true true) [])
       [ws_handshake],
     [initiate ws_handshake]).
Proof. reflexivity. Qed.

Lemma start_phase sock : in_phase Handshaking (fst (session.start sock)).
Proof. rewrite start_eq. cbn [fst]. apply phase_handshaking. reflexivity. Qed.

Lemma deliver_step c ev :
  well_formed c ->
  well_formed (fst (session.deliver c ev)) /\ delivery c (session.deliver c ev).
Proof.
  intros [p Hp]. destruct Hp as [s Hb|s Hb|s|s]; destruct ev as [ec|ec rcv b|ec n];
    cbn [session.deliver session.pending session.obj retire
         is_handshake is_read is_write option_map];
    try (split; [eexists; constructor; eassumption | apply delivery_ignored; reflexivity]).
  - (* handshake completes *)
    unfold session.invoke. destruct (ec_failed ec) eqn:Hec.
    + rewrite (on_accept_failure _ _ Hec). cbn.
      split; [eexists; apply phase_closed|].
      eapply delivery_final; reflexivity.
    + rewrite (on_accept_success _ _ Hec), Hb. cbn.
      split; [eexists; apply phase_reading; exact Hb|].
      eapply delivery_next; reflexivity.
  - (* read completes *)
    unfold session.invoke.
    destruct (decide (ec = websocket_error_closed)) as [->|Hne].
    + rewrite on_read_closed. cbn.
      split; [eexists; apply phase_closed|].
      eapply delivery_final; reflexivity.
    + assert (Hrun : exists tr,
                 session.on_read ec (length rcv) (session.received_into rcv b s)
                 = (tt, mirrored (session.received_into rcv b s), tr)
                 /\ initiated tr = [echo_of (session.received_into rcv b s)]).
      { destruct (ec_failed ec) eqn:Hec.
        - rewrite (on_read_failure _ _ _ Hne Hec). eexists. split; reflexivity.
        - rewrite (on_read_success _ _ _ Hec). eexists. split; reflexivity. }
      destruct Hrun as (tr & -> & Htr). unfold state_of, trace_of. cbn [fst snd app].
      rewrite Htr. split.
      * eexists. apply phase_echoing.
      * eapply delivery_next; cbn [fst snd session.pending]; try reflexivity.
        exact Htr.
  - (* write completes *)
    unfold session.invoke. destruct (ec_failed ec) eqn:Hec.
    + rewrite (on_write_failure _ _ _ Hec). cbn.
      split; [eexists; apply phase_closed|].
      eapply delivery_final; reflexivity.
    + rewrite (on_write_success _ _ _ Hec). cbn.
      split; [eexists; apply phase_reading; reflexivity|].
      eapply delivery_next; reflexivity.
Qed.

End session_invariant.

Section session_runs.
Context `{Platform}.

Lemma deliver_all_well_formed evs : forall c,
  well_formed c -> well_formed (fst (session.deliver_all c evs)).
Proof.
  induction evs as [|ev evs IH]; intros c Hc; cbn [session.deliver_all].
  - exact Hc.
  - destruct (deliver_step c ev Hc) as [Hc1 _].
    destruct (session.deliver c ev) as [c1 t1]. cbn [fst] in Hc1.
    specialize (IH c1 Hc1).
    destruct (session.deliver_all c1 evs) as [c2 t2]. exact IH.
Qed.

Lemma closed_stays_closed evs : forall c,
  session.pending c = [] -> session.deliver_all c evs = (c, []).
Proof.
  induction evs as [|ev evs IH]; intros c Hc; cbn [session.deliver_all].
  - reflexivity.
  - assert (Hd : session.deliver c ev = (c, [])).
    { unfold session.deliver. rewrite Hc. destruct ev; reflexivity. }
    rewrite Hd, (IH c Hc). reflexivity.
Qed.

(** From a configuration with [o] outstanding, the operations started
    later follow [o] in order, and what is outstanding in the end is the
    operation started last. *)
Lemma deliver_all_chained evs : forall c o,
  well_formed c ->
  session.pending c = [o] ->
  chained o (initiated (snd (session.deliver_all c evs))) = true /\
  (session.pending (fst (session.deliver_all c evs)) = [] \/
   exists o', last (o :: initiated (snd (session.deliver_all c evs))) = Some o' /\
              session.pending (fst (session.deliver_all c evs)) = [o']).
Proof.
  induction evs as [|ev evs IH]; intros c o Hc Ho; cbn [session.deliver_all].
  - cbn. split; [reflexivity|]. right. exists o. split; [reflexivity|exact Ho].
  - destruct (deliver_step c ev Hc) as [Hc1 Hd].
    destruct (session.deliver c ev) as [c1 t1] eqn:E1. cbn [fst] in Hc1.
    destruct Hd as [Hig | o0 Hp Hi Hp1 | o0 o' Hp Hi Hp1 Hn].
    + injection Hig as -> ->.
      specialize (IH c o Hc Ho).
      destruct (session.deliver_all c evs) as [c2 t2]. cbn [app]. exact IH.
    + cbn [fst snd] in Hi, Hp1.
      rewrite (closed_stays_closed evs c1 Hp1). cbn [fst snd].
      rewrite app_nil_r, Hi. split; [reflexivity|]. left. exact Hp1.
    + cbn [fst snd] in Hi, Hp1.
      rewrite Ho in Hp. injection Hp as <-.
      specialize (IH c1 o' Hc1 Hp1).
      destruct (session.deliver_all c1 evs) as [c2 t2]. cbn [fst snd] in IH |- *.
      rewrite initiated_app, Hi. cbn [app chained].
      destruct IH as [IHc IHl]. rewrite Hn, IHc. split; [reflexivity|].
      destruct IHl as [Hnil | (o2 & Hl & Hp2)]; [left; exact Hnil|].
      right. exists o2. split; [|exact Hp2].
      rewrite <- Hl. reflexivity.
Qed.

Lemma execution_eq sock evs :
  session.execution sock evs =
    (fst (session.deliver_all (fst (session.start sock)) evs),
     initiate ws_handshake :: snd (session.deliver_all (fst (session.start sock)) evs)).
Proof.
  unfold session.execution. rewrite start_eq. cbn [fst].
  destruct (session.deliver_all _ evs) as [c t]. reflexivity.
Qed.

Lemma execution_well_formed sock evs :
  well_formed (fst (session.execution sock evs)).
Proof.
  rewrite execution_eq. cbn [fst].
  apply deliver_all_well_formed. exists Handshaking. apply start_phase.
Qed.

(** A reachable configuration with a read outstanding is in [Reading]. *)
Lemma reading_configuration c into :
  well_formed c -> In (ws_read into) (session.pending c) ->
  exists s, c = session.mk_cfg s [ws_read []] /\ session._buffer s = [].
Proof.
  intros [p Hp] Hin. destruct Hp as [s Hb|s Hb|s|s]; cbn in Hin.
  - destruct Hin as [Hin|[]]. discriminate Hin.
  - exists s. split; [reflexivity|exact Hb].
  - destruct Hin as [Hin|[]]. discriminate Hin.
  - destruct Hin.
Qed.

End session_runs.

(** ** Session: claims *)

(** C1 (the code departs from it): a read that fails with an error other
    than the closed condition is logged, but [on_read] does not return after
    logging: it goes on to [async_write], so the session has a write
    outstanding instead of being closed.  Evaluated on a session whose
    first read fails with a connection reset after one byte arrived. *)
Theorem read_failure_still_starts_a_write :
  @session.deliver sample_platform sample_reading
     (session.read_done connection_reset [x70] false)
  = (session.mk_cfg
       (session.mk
          (session.mk_stream 5 (Some session.server)
             (Some "Boost.Beast/347 websocket-server-async") false false)
          [x70])
       [ws_write [x70] false],
     [cerr ("read: Connection reset by peer" +:+ newline);
      initiate (ws_write [x70] false)]).
Proof. vm_compute. reflexivity. Qed.

Section session_claims.
Context `{Platform}.

(** The same for every session and every such error. *)
Lemma read_failure_falls_through sock evs into ec received is_text :
  In (ws_read into) (session.pending (fst (session.execution sock evs))) ->
  ec <> websocket_error_closed ->
  ec_failed ec = true ->
  snd (session.deliver (fst (session.execution sock evs))
         (session.read_done ec received is_text))
  = [cerr (log_line "read" ec); initiate (ws_write received is_text)].
Proof.
  intros Hin Hne Hec.
  destruct (reading_configuration _ into (execution_well_formed sock evs) Hin)
    as (s & -> & Hb).
  cbn [session.deliver session.pending session.obj retire is_read].
  unfold session.invoke. rewrite (on_read_failure _ _ _ Hne Hec).
  unfold trace_of, echo_of, session.received_into. cbn. rewrite Hb. reflexivity.
Qed.

(** C3: when a read completes successfully with message [msg], text or
    binary as [is_text] says, the session starts exactly one operation,
    the write of [msg] with that same text/binary setting, and writes
    nothing to the log. *)
Theorem echo_is_the_message_read sock evs into ec msg is_text :
  In (ws_read into) (session.pending (fst (session.execution sock evs))) ->
  ec_failed ec = false ->
  snd (session.deliver (fst (session.execution sock evs))
         (session.read_done ec msg is_text))
    = [initiate (ws_write msg is_text)] /\
  session.pending
    (fst (session.deliver (fst (session.execution sock evs))
            (session.read_done ec msg is_text)))
    = [ws_write msg is_text].
Proof.
  intros Hin Hec.
  destruct (reading_configuration _ into (execution_well_formed sock evs) Hin)
    as (s & -> & Hb).
  cbn [session.deliver session.pending session.obj retire is_read].
  unfold session.invoke. rewrite (on_read_success _ _ _ Hec).
  unfold trace_of, state_of, echo_of, session.received_into.
  cbn. rewrite Hb. split; reflexivity.
Qed.

(** C4: when a read completes with the closed condition, the handler
    writes nothing to the log and starts no operation, and the session is
    left with nothing outstanding (Closed). *)
Theorem closed_read_ends_session_silently sock evs into received is_text :
  In (ws_read into) (session.pending (fst (session.execution sock evs))) ->
  snd (session.deliver (fst (session.execution sock evs))
         (session.read_done websocket_error_closed received is_text)) = [] /\
  session.closed
    (fst (session.deliver (fst (session.execution sock evs))
            (session.read_done websocket_error_closed received is_text))).
Proof.
  intros Hin.
  destruct (reading_configuration _ into (execution_well_formed sock evs) Hin)
    as (s & -> & Hb).
  cbn [session.deliver session.pending session.obj retire is_read].
  unfold session.invoke. rewrite on_read_closed.
  split; reflexivity.
Qed.

(** C5: at every point of every session at most one operation is
    outstanding; the operations are started in the order handshake, read,
    write, read, write, ...; the operation outstanding, if any, is the
    one started last, so each one was started after all earlier ones had
    completed; and any further completion either is ignored or retires
    the outstanding operation and starts at most one, the next in
    order, from its handler. *)
Theorem session_operations_sequential sock evs :
  (length (session.pending (fst (session.execution sock evs))) <= 1)%nat /\
  in_order (initiated (snd (session.execution sock evs))) = true /\
  (session.pending (fst (session.execution sock evs)) = [] \/
   exists o, last (initiated (snd (session.execution sock evs))) = Some o /\
             session.pending (fst (session.execution sock evs)) = [o]) /\
  (forall ev, delivery (fst (session.execution sock evs))
                (session.deliver (fst (session.execution sock evs)) ev)).
Proof.
  pose proof (execution_well_formed sock evs) as Hwf.
  split; [|split; [|split]].
  - destruct Hwf as [p Hp]. destruct Hp; cbn; lia.
  - rewrite execution_eq. cbn [snd initiated omap in_order is_handshake andb].
    change (omap _ ?l) with (initiated l).
    apply deliver_all_chained; [exists Handshaking; apply start_phase|].
    rewrite start_eq. reflexivity.
  - rewrite execution_eq. cbn [fst snd].
    destruct (deliver_all_chained evs (fst (session.start sock)) ws_handshake)
      as [_ Hl]; [exists Handshaking; apply start_phase|rewrite start_eq; reflexivity|].
    exact Hl.
  - intros ev. apply deliver_step. exact Hwf.
Qed.

(** C8: when a write completes successfully the session first empties its
    buffer and then starts the next read: the handler is [do_read] run on
    the session whose buffer has been consumed whole, so the read it starts
    is started on the empty buffer, whatever the buffer held when the
    handler was entered.  It does nothing else, and the echo of the message
    read next consists of that message alone. *)
Theorem write_success_clears_buffer_then_reads s data text ec n :
  ec_failed ec = false ->
  session.on_write ec n s
    = session.do_read
        (session.with_buffer (session.consume (session.size (session._buffer s))) s) /\
  session.deliver (session.mk_cfg s [ws_write data text]) (session.write_done ec n)
    = (session.mk_cfg (session.mk (session._ws s) []) [ws_read []],
       [initiate (ws_read [])]) /\
  forall ec' msg is_text,
    ec_failed ec' = false ->
    snd (session.deliver
           (fst (session.deliver (session.mk_cfg s [ws_write data text])
                   (session.write_done ec n)))
           (session.read_done ec' msg is_text))
      = [initiate (ws_write msg is_text)].
Proof.
  intros Hec.
  assert (Hw : session.deliver (session.mk_cfg s [ws_write data text])
                 (session.write_done ec n)
               = (session.mk_cfg (session.mk (session._ws s) []) [ws_read []],
                  [initiate (ws_read [])])).
  { cbn [session.deliver session.pending session.obj retire is_write].
    unfold session.invoke. rewrite (on_write_success _ _ _ Hec). reflexivity. }
  split; [|split; [exact Hw|]].
  - unfold session.on_write. rewrite Hec. reflexivity.
  - intros ec' msg is_text Hec'. rewrite Hw.
    cbn [fst session.deliver session.pending session.obj retire is_read].
    unfold session.invoke. rewrite (on_read_success _ _ _ Hec'). reflexivity.
Qed.

End session_claims.

(** ** Listener and process *)

Section listener_facts.
Context `{Platform}.

Lemma listener_on_accept_failure ec sock l :
  ec_failed ec = true ->
  listener.on_accept ec sock l =
    (tt, l, [cerr (log_line "accept" ec); initiate tcp_accept]).
Proof. intros Hec. unfold listener.on_accept. rewrite Hec. reflexivity. Qed.

Lemma listener_on_accept_success ec sock l :
  ec_failed ec = false ->
  listener.on_accept ec sock l =
    (tt, with_session (fst (session.start sock)) l,
     [initiate ws_handshake; initiate tcp_accept]).
Proof. intros Hec. unfold listener.on_accept. rewrite Hec. reflexivity. Qed.

Lemma dispatch_accept w ec sock :
  listener.pending w = [tcp_accept] ->
  dispatch w (accept_done ec sock) =
    (listener.mk_cfg
       (if ec_failed ec then listener.obj w
        else with_session (fst (session.start sock)) (listener.obj w))
       [tcp_accept],
     (if ec_failed ec then [cerr (log_line "accept" ec)] else snd (session.start sock))
       ++ [initiate tcp_accept]).
Proof.
  intros Hp. unfold dispatch. rewrite Hp. cbn [retire is_accept].
  unfold listener.invoke. destruct (ec_failed ec) eqn:Hec.
  - rewrite (listener_on_accept_failure _ _ _ Hec). reflexivity.
  - rewrite (listener_on_accept_success _ _ _ Hec). reflexivity.
Qed.

Lemma dispatch_keeps_accept w ev :
  listener.pending w = [tcp_accept] ->
  listener.pending (fst (dispatch w ev)) = [tcp_accept] /\
  listener._acceptor (listener.obj (fst (dispatch w ev)))
    = listener._acceptor (listener.obj w).
Proof.
  intros Hp. destruct ev as [ec sock|i sev].
  - rewrite (dispatch_accept _ _ _ Hp). cbn [fst listener.pending listener.obj].
    split; [reflexivity|]. destruct (ec_failed ec); reflexivity.
  - unfold dispatch. destruct (live_sessions w !! i) as [c|]; [|auto].
    destruct (session.deliver c sev) as [c' tr]. cbn. auto.
Qed.

Lemma accepting_has_work w :
  listener.pending w = [tcp_accept] -> out_of_work w = false.
Proof. intros Hp. unfold out_of_work. rewrite Hp. reflexivity. Qed.

(** With an accept outstanding [ioc.run()] does not return, and an
    accept is outstanding again after every completion. *)
Lemma ioc_run_keeps_accepting evs : forall w,
  listener.pending w = [tcp_accept] ->
  exists w' tr,
    ioc_run w evs = (w', tr, false) /\
    listener.pending w' = [tcp_accept] /\
    listener._acceptor (listener.obj w') = listener._acceptor (listener.obj w).
Proof.
  induction evs as [|ev evs IH]; intros w Hp; cbn [ioc_run];
    rewrite (accepting_has_work _ Hp).
  - exists w, []. auto.
  - destruct (dispatch_keeps_accept w ev Hp) as [Hp1 Ha1].
    destruct (dispatch w ev) as [w1 t1]. cbn [fst] in Hp1, Ha1.
    destruct (IH w1 Hp1) as (w2 & t2 & -> & Hp2 & Ha2).
    exists w2, (t1 ++ t2). rewrite Ha2, Ha1. auto.
Qed.

Lemma construct_trace env ioc endpoint :
  snd (listener.construct env ioc endpoint) =
    if ec_failed (tcp.open_ec env)
    then setup_calls endpoint 1 ++ [cerr (log_line "open" (tcp.open_ec env))]
    else if ec_failed (tcp.set_option_ec env)
    then setup_calls endpoint 2 ++ [cerr (log_line "set_option" (tcp.set_option_ec env))]
    else if ec_failed (tcp.bind_ec env)
    then setup_calls endpoint 3 ++ [cerr (log_line "bind" (tcp.bind_ec env))]
    else if ec_failed (tcp.listen_ec env)
    then setup_calls endpoint 4 ++ [cerr (log_line "listen" (tcp.listen_ec env))]
    else setup_calls endpoint 4.
Proof.
  unfold listener.construct, listener.setup, listener.on_acceptor, tcp.call.
  run_act.
  case_outcome (tcp.open_ec env); [reflexivity|].
  case_outcome (tcp.set_option_ec env); [reflexivity|].
  case_outcome (tcp.bind_ec env); [reflexivity|].
  case_outcome (tcp.listen_ec env); reflexivity.
Qed.


(** [main] once the arguments are accepted: the constructor, [run()], the
    threads, then the event loop, which does not return. *)
Lemma main_serving argv env evs address :
  length argv = 4%nat ->
  make_address (arg argv 1) = Some address ->
  exists w tr,
    main argv env evs =
      (serving w,
       snd (listener.construct env
              (mk_ioc (Z.max 1 (atoi (arg argv 3))) [])
              (mk_endpoint address (to_unsigned_short (atoi (arg argv 2)))))
       ++ [initiate tcp_accept]
       ++ replicate (Z.to_nat (Z.max 1 (atoi (arg argv 3)) - 1)) thread_start
       ++ tr) /\
    listener.pending w = [tcp_accept] /\
    listener._acceptor (listener.obj w) =
      listener._acceptor
        (fst (listener.construct env
                (mk_ioc (Z.max 1 (atoi (arg argv 3))) [])
                (mk_endpoint address (to_unsigned_short (atoi (arg argv 2)))))).
Proof.
  intros Hlen Haddr. unfold main. rewrite Hlen, Haddr. cbn [Nat.eqb negb].
  destruct (listener.construct env _ _) as [l t1]. cbn [fst snd].
  change (listener.invoke listener.run l [])
    with (listener.mk_cfg l [tcp_accept], [initiate tcp_accept]).
  cbv beta iota zeta.
  destruct (ioc_run_keeps_accepting evs (listener.mk_cfg l [tcp_accept]) eq_refl)
    as (w' & tr & -> & Hp & Ha).
  exists w', tr. auto.
Qed.



End listener_facts.

(** ** Listener and process: claims *)


Section process_claims.
Context `{Platform}.


(** C6: once [main] has started the listener, exactly one accept is
    outstanding after any sequence of completions; and the next accept
    completion, whatever its outcome, logs the failure or starts a
    session on the accepted socket, and then starts exactly one new
    accept. *)
Theorem listener_keeps_one_accept_outstanding
        argv env evs address ec sock :
  length argv = 4%nat ->
  make_address (arg argv 1) = Some address ->
  exists w tr,
    main argv env evs = (serving w, tr) /\
    listener.pending w = [tcp_accept] /\
    snd (dispatch w (accept_done ec sock)) =
      (if ec_failed ec then [cerr (log_line "accept" ec)]
       else snd (session.start sock)) ++ [initiate tcp_accept] /\
    live_sessions (fst (dispatch w (accept_done ec sock))) =
      live_sessions w ++
      (if ec_failed ec then [] else [fst (session.start sock)]) /\
    listener.pending (fst (dispatch w (accept_done ec sock))) = [tcp_accept].
Proof.
  intros Hlen Haddr.
  destruct (main_serving argv env evs address Hlen Haddr) as (w & tr & Hm & Hp & _).
  eexists w, _. split; [exact Hm|]. split; [exact Hp|].
  rewrite (dispatch_accept w ec sock Hp). cbn [fst snd].
  split; [reflexivity|]. split; [|reflexivity].
  unfold live_sessions. cbn [listener.obj].
  destruct (ec_failed ec); [rewrite app_nil_r|]; reflexivity.
Qed.

(** C7: when the handshake of session [i] completes with an error, the
    handler writes the one log line and starts no operation; session [i]
    is left with nothing outstanding (Closed), its object untouched; all
    other sessions, the listener's outstanding accept and the acceptor
    are unchanged. *)
Theorem failed_handshake_ends_only_that_session w i c ec :
  live_sessions w !! i = Some c ->
  session.pending c = [ws_handshake] ->
  ec_failed ec = true ->
  snd (dispatch w (session_done i (session.handshake_done ec)))
    = [cerr (log_line "accept" ec)] /\
  live_sessions (fst (dispatch w (session_done i (session.handshake_done ec)))) !! i
    = Some (session.mk_cfg (session.obj c) []) /\
  (forall j, j <> i ->
     live_sessions (fst (dispatch w (session_done i (session.handshake_done ec)))) !! j
     = live_sessions w !! j) /\
  listener.pending (fst (dispatch w (session_done i (session.handshake_done ec))))
    = listener.pending w /\
  listener._acceptor
    (listener.obj (fst (dispatch w (session_done i (session.handshake_done ec)))))
    = listener._acceptor (listener.obj w).
Proof.
  intros Hi Hp Hec.
  assert (Hd : session.deliver c (session.handshake_done ec)
               = (session.mk_cfg (session.obj c) [], [cerr (log_line "accept" ec)])).
  { unfold session.deliver. rewrite Hp. cbn [retire is_handshake].
    unfold session.invoke. rewrite (on_accept_failure _ _ Hec). reflexivity. }
  unfold dispatch. rewrite Hi, Hd. cbn [fst snd].
  split; [reflexivity|]. split; [|split; [|split; reflexivity]].
  - unfold live_sessions at 1. cbn.
    apply list_lookup_insert_eq. eapply lookup_lt_Some. exact Hi.
  - intros j Hj. unfold live_sessions at 1. cbn.
    apply list_lookup_insert_ne. congruence.
Qed.

(** C9: when [argc] is not 4, that is, when the program name is not
    followed by exactly three arguments, [main] writes the usage text to
    [std::cerr] and returns [EXIT_FAILURE]; it does nothing else: no
    acceptor call, no accept, no thread. *)
Theorem wrong_argument_count_prints_usage argv env evs :
  length argv <> 4%nat ->
  main argv env evs = (exited EXIT_FAILURE, [cerr usage]).
Proof.
  intros Hlen. unfold main.
  destruct (Nat.eqb_spec (length argv) 4) as [Heq|_]; [contradiction|].
  reflexivity.
Qed.

(** C10: a failed handshake in a session and a failed accept in the
    listener write the same line to the log, the one [fail] produces for
    the label "accept". *)
Theorem handshake_and_accept_failures_share_label ec s sock l :
  ec_failed ec = true ->
  trace_of (session.on_accept ec s) = trace_of (fail ec "accept" s) /\
  trace_of (listener.on_accept ec sock l)
    = trace_of (fail ec "accept" l) ++ [initiate tcp_accept] /\
  logged (trace_of (session.on_accept ec s)) = [log_line "accept" ec] /\
  logged (trace_of (listener.on_accept ec sock l)) = [log_line "accept" ec].
Proof.
  intros Hec.
  rewrite (on_accept_failure _ _ Hec), (listener_on_accept_failure _ _ _ Hec).
  repeat split.
Qed.

End process_claims.

Lemma echo_is_the_message_read_witness :
  In (ws_read []) (session.pending sample_reading) /\
  ec_failed no_error = false /\
  snd (@session.deliver sample_platform sample_reading
         (session.read_done no_error ping true))
    = [initiate (ws_write ping true)] /\
  session.pending
    (fst (@session.deliver sample_platform sample_reading
            (session.read_done no_error ping true)))
    = [ws_write ping true].
Proof.
  assert (Hin : In (ws_read []) (session.pending sample_reading))
    by (left; reflexivity).
  split; [exact Hin|]. split; [reflexivity|].
  exact (@echo_is_the_message_read sample_platform 5
           [session.handshake_done no_error] [] no_error ping true Hin eq_refl).
Defined.

Lemma closed_read_ends_session_silently_witness :
  In (ws_read []) (session.pending sample_reading) /\
  snd (@session.deliver sample_platform sample_reading
         (session.read_done websocket_error_closed [] false)) = [] /\
  session.closed
    (fst (@session.deliver sample_platform sample_reading
            (session.read_done websocket_error_closed [] false))).
Proof.
  assert (Hin : In (ws_read []) (session.pending sample_reading))
    by (left; reflexivity).
  split; [exact Hin|].
  exact (@closed_read_ends_session_silently sample_platform 5
           [session.handshake_done no_error] [] [] false Hin).
Defined.

Lemma write_success_clears_buffer_then_reads_witness :
  ec_failed no_error = false /\
  @session.on_write sample_platform no_error 4 sample_echoing
    = session.do_read (session.mk (session._ws sample_echoing) []) /\
  @session.deliver sample_platform
     (session.mk_cfg sample_echoing [ws_write ping true])
     (session.write_done no_error 4)
    = (session.mk_cfg (session.mk (session._ws sample_echoing) []) [ws_read []],
       [initiate (ws_read [])]) /\
  snd (@session.deliver sample_platform
         (fst (@session.deliver sample_platform
                 (session.mk_cfg sample_echoing [ws_write ping true])
                 (session.write_done no_error 4)))
         (session.read_done no_error [x00; x00; x00; x00] false))
    = [initiate (ws_write [x00; x00; x00; x00] false)].
Proof.
  split; [reflexivity|].
  destruct (@write_success_clears_buffer_then_reads sample_platform
              sample_echoing ping true no_error 4 eq_refl) as (Ho & Hw & Hr).
  split; [exact Ho|]. split; [exact Hw|].
  exact (Hr no_error [x00; x00; x00; x00] false eq_refl).
Defined.


Lemma listener_keeps_one_accept_outstanding_witness :
  length sample_argv = 4%nat /\
  @make_address sample_platform (arg sample_argv 1) = Some (ip_addr "0.0.0.0") /\
  exists w tr,
    @main sample_platform sample_argv all_succeed [accept_done no_error 5] = (serving w, tr) /\
    listener.pending w = [tcp_accept] /\
    snd (@dispatch sample_platform w (accept_done connection_reset 0)) =
      (if ec_failed connection_reset
       then [cerr (@log_line sample_platform "accept" connection_reset)]
       else snd (@session.start sample_platform 0)) ++ [initiate tcp_accept] /\
    live_sessions (fst (@dispatch sample_platform w (accept_done connection_reset 0))) =
      live_sessions w ++
      (if ec_failed connection_reset then []
       else [fst (@session.start sample_platform 0)]) /\
    listener.pending (fst (@dispatch sample_platform w (accept_done connection_reset 0)))
      = [tcp_accept].
Proof.
  split; [reflexivity|]. split; [reflexivity|].
  exact (@listener_keeps_one_accept_outstanding sample_platform
           sample_argv all_succeed [accept_done no_error 5]
           (ip_addr "0.0.0.0") connection_reset 0 eq_refl eq_refl).
Defined.

Lemma failed_handshake_ends_only_that_session_witness :
  live_sessions sample_world !! 0 = Some (fst (@session.start sample_platform 5)) /\
  session.pending (fst (@session.start sample_platform 5)) = [ws_handshake] /\
  ec_failed connection_reset = true /\
  snd (@dispatch sample_platform sample_world
         (session_done 0 (session.handshake_done connection_reset)))
    = [cerr (@log_line sample_platform "accept" connection_reset)] /\
  live_sessions (fst (@dispatch sample_platform sample_world
                        (session_done 0 (session.handshake_done connection_reset)))) !! 1
    = live_sessions sample_world !! 1.
Proof.
  split; [reflexivity|]. split; [reflexivity|]. split; [reflexivity|].
  destruct (@failed_handshake_ends_only_that_session sample_platform
              sample_world 0 (fst (@session.start sample_platform 5))
              connection_reset eq_refl eq_refl eq_refl)
    as (Htr & _ & Hothers & _ & _).
  split; [exact Htr|]. apply Hothers. discriminate.
Defined.

Lemma wrong_argument_count_prints_usage_witness :
  length ["websocket-server"; "0.0.0.0"; "8080"] <> 4%nat /\
  @main sample_platform ["websocket-server"; "0.0.0.0"; "8080"] all_succeed []
    = (exited EXIT_FAILURE, [cerr usage]).
Proof.
  assert (Hlen : length ["websocket-server"; "0.0.0.0"; "8080"] <> 4%nat)
    by discriminate.
  split; [exact Hlen|].
  exact (@wrong_argument_count_prints_usage sample_platform
           ["websocket-server"; "0.0.0.0"; "8080"] all_succeed [] Hlen).
Defined.

Lemma handshake_and_accept_failures_share_label_witness :
  ec_failed connection_reset = true /\
  logged (trace_of (@session.on_accept sample_platform connection_reset (session.create 5)))
    = [@log_line sample_platform "accept" connection_reset] /\
  logged (trace_of (@listener.on_accept sample_platform connection_reset 0 sample_listener))
    = [@log_line sample_platform "accept" connection_reset].
Proof.
  split; [reflexivity|].
  destruct (@handshake_and_accept_failures_share_label sample_platform
              connection_reset (session.create 5) 0 sample_listener eq_refl)
    as (_ & _ & Hs & Hl).
  split; [exact Hs|exact Hl].
Defined.

(** * Further properties of the session *)

Section session_steps.
Context `{Platform}.

Lemma deliver_handshake_ok s ok :
  ec_failed ok = false ->
  session.deliver (session.mk_cfg s [ws_handshake]) (session.handshake_done ok)
    = (session.mk_cfg s [ws_read (session._buffer s)],
       [initiate (ws_read (session._buffer s))]).
Proof.
  intros Hok. cbn [session.deliver session.pending session.obj retire is_handshake].
  unfold session.invoke. rewrite (on_accept_success _ _ Hok). reflexivity.
Qed.

Lemma deliver_read_ok s ok msg is_text :
  ec_failed ok = false ->
  session._buffer s = [] ->
  session.deliver (session.mk_cfg s [ws_read []]) (session.read_done ok msg is_text)
    = (session.mk_cfg (mirrored (session.received_into msg is_text s))
                      [ws_write msg is_text],
       [initiate (ws_write msg is_text)]).
Proof.
  intros Hok Hb. cbn [session.deliver session.pending session.obj retire is_read].
  unfold session.invoke. rewrite (on_read_success _ _ _ Hok).
  unfold state_of, trace_of, echo_of, session.received_into. cbn.
  rewrite Hb. reflexivity.
Qed.

Lemma deliver_write_ok s ok n data text :
  ec_failed ok = false ->
  session.deliver (session.mk_cfg s [ws_write data text]) (session.write_done ok n)
    = (session.mk_cfg (session.mk (session._ws s) []) [ws_read []],
       [initiate (ws_read [])]).
Proof.
  intros Hok. cbn [session.deliver session.pending session.obj retire is_write].
  unfold session.invoke. rewrite (on_write_success _ _ _ Hok). reflexivity.
Qed.

(** A reachable configuration with a write outstanding is in [Echoing]:
    the write carries the buffer and the stream's text setting. *)
Lemma writing_configuration c data text :
  well_formed c -> In (ws_write data text) (session.pending c) ->
  exists s, c = session.mk_cfg s [ws_write data text] /\
            data = session._buffer s /\
            text = session.text_mode (session._ws s).
Proof.
  intros [p Hp] Hin. destruct Hp as [s Hb|s Hb|s|s]; cbn in Hin.
  - destruct Hin as [Hin|[]]. discriminate Hin.
  - destruct Hin as [Hin|[]]. discriminate Hin.
  - destruct Hin as [Hin|[]]. injection Hin as <- <-.
    exists s. split; [reflexivity|]. split; reflexivity.
  - destruct Hin.
Qed.

(** The messages of a conversation, delivered to a session that waits for
    a message with an empty buffer. *)
Lemma echoes_from_reading ok msgs : forall s,
  ec_failed ok = false ->
  session._buffer s = [] ->
  exists s',
    session.deliver_all (session.mk_cfg s [ws_read []])
      (flat_map (fun m => [session.read_done ok (fst m) (snd m);
                           session.write_done ok (length (fst m))]) msgs)
    = (session.mk_cfg s' [ws_read []],
       flat_map (fun m => [initiate (ws_write (fst m) (snd m)); initiate (ws_read [])]) msgs)
    /\ session._buffer s' = []
    /\ session._ws s' =
         session.set_got_text (session.got_text_flag (session._ws s'))
           (session.set_text (session.text_mode (session._ws s')) (session._ws s)).
Proof.
  induction msgs as [|[msg t] msgs IH]; intros s Hok Hb.
  - exists s. split; [reflexivity|]. split; [exact Hb|].
    destruct s as [[? ? ? ? ?] ?]. reflexivity.
  - cbn [flat_map app fst snd session.deliver_all].
    rewrite (deliver_read_ok s ok msg t Hok Hb).
    rewrite (deliver_write_ok _ ok (length msg) msg t Hok).
    destruct (IH (session.mk
                    (session._ws (mirrored (session.received_into msg t s))) [])
                 Hok eq_refl) as (s' & -> & Hb' & Hw').
    exists s'. split; [reflexivity|]. split; [exact Hb'|].
    rewrite Hw' at 1. destruct s as [[? ? ? ? ?] ?]. reflexivity.
Qed.

(** No handler changes the socket, the timeout or the decorator. *)
Lemma deliver_keeps_settings sock c ev :
  configured sock (session.obj c) ->
  configured sock (session.obj (fst (session.deliver c ev))).
Proof.
  intros Hc. destruct ev as [ec|ec rcv b|ec n]; unfold session.deliver.
  - destruct (retire is_handshake _) as [rest|]; [|exact Hc].
    unfold session.invoke. destruct (ec_failed ec) eqn:Hec.
    + rewrite (on_accept_failure _ _ Hec). exact Hc.
    + rewrite (on_accept_success _ _ Hec). exact Hc.
  - destruct (retire is_read _) as [rest|]; [|exact Hc].
    unfold session.invoke.
    destruct (decide (ec = websocket_error_closed)) as [->|Hne].
    + rewrite on_read_closed. exact Hc.
    + destruct (ec_failed ec) eqn:Hec.
      * rewrite (on_read_failure _ _ _ Hne Hec). exact Hc.
      * rewrite (on_read_success _ _ _ Hec). exact Hc.
  - destruct (retire is_write _) as [rest|]; [|exact Hc].
    unfold session.invoke. destruct (ec_failed ec) eqn:Hec.
    + rewrite (on_write_failure _ _ _ Hec). exact Hc.
    + rewrite (on_write_success _ _ _ Hec). exact Hc.
Qed.

Lemma deliver_all_keeps_settings sock evs : forall c,
  configured sock (session.obj c) ->
  configured sock (session.obj (fst (session.deliver_all c evs))).
Proof.
  induction evs as [|ev evs IH]; intros c Hc; cbn [session.deliver_all].
  - exact Hc.
  - pose proof (deliver_keeps_settings sock c ev Hc) as H1.
    destruct (session.deliver c ev) as [c1 t1]. cbn [fst] in H1.
    specialize (IH c1 H1). destruct (session.deliver_all c1 evs) as [c2 t2].
    exact IH.
Qed.

(** Whatever a handler writes to the log is the report of a failed error
    code under a label. *)
Lemma deliver_log_ok c ev : Forall log_entry_ok (snd (session.deliver c ev)).
Proof.
  assert (Hlab : forall what ec, In what labels -> ec_failed ec = true ->
                                 log_entry_ok (cerr (log_line what ec))).
  { intros what ec Hin Hec. right. exists what, ec. auto. }
  destruct ev as [ec|ec rcv b|ec n]; unfold session.deliver.
  - destruct (retire is_handshake _) as [rest|]; [|constructor].
    unfold session.invoke. destruct (ec_failed ec) eqn:Hec.
    + rewrite (on_accept_failure _ _ Hec). cbn.
      constructor; [apply Hlab; [cbn; tauto|exact Hec]|repeat constructor].
    + rewrite (on_accept_success _ _ Hec). cbn. repeat constructor.
  - destruct (retire is_read _) as [rest|]; [|constructor].
    unfold session.invoke.
    destruct (decide (ec = websocket_error_closed)) as [->|Hne].
    + rewrite on_read_closed. constructor.
    + destruct (ec_failed ec) eqn:Hec.
      * rewrite (on_read_failure _ _ _ Hne Hec). cbn.
        constructor; [apply Hlab; [cbn; tauto|exact Hec]|repeat constructor].
      * rewrite (on_read_success _ _ _ Hec). cbn. repeat constructor.
  - destruct (retire is_write _) as [rest|]; [|constructor].
    unfold session.invoke. destruct (ec_failed ec) eqn:Hec.
    + rewrite (on_write_failure _ _ _ Hec). cbn.
      constructor; [apply Hlab; [cbn; tauto|exact Hec]|repeat constructor].
    + rewrite (on_write_success _ _ _ Hec). cbn. repeat constructor.
Qed.

End session_steps.

Section session_extras.
Context `{Platform}.

(** X1: when the write of an echo completes with an error, the session
    writes the one log line labelled "write" and starts nothing; it is left
    with nothing outstanding (Closed) and its object, buffer included, is as
    it was. *)
Theorem write_failure_ends_session sock evs ec n data text :
  In (ws_write data text) (session.pending (fst (session.execution sock evs))) ->
  ec_failed ec = true ->
  session.deliver (fst (session.execution sock evs)) (session.write_done ec n)
    = (session.mk_cfg (session.obj (fst (session.execution sock evs))) [],
       [cerr (log_line "write" ec)]).
Proof.
  intros Hin Hec.
  destruct (writing_configuration _ data text (execution_well_formed sock evs) Hin)
    as (s & -> & _ & _).
  cbn [session.deliver session.pending session.obj retire is_write].
  unfold session.invoke. rewrite (on_write_failure _ _ _ Hec). reflexivity.
Qed.

(** X2: in a conversation in which the handshake and every read and write
    succeed, the session does exactly this: it starts the handshake, then a
    read, and for each message in turn the write of that message's bytes
    with that message's text/binary setting followed by the next read.  It
    writes nothing to the log, and ends waiting for a message with an empty
    buffer. *)
Theorem conversation_is_echoed sock ok msgs :
  ec_failed ok = false ->
  snd (session.execution sock (conversation ok msgs)) = echo_trace msgs /\
  session.pending (fst (session.execution sock (conversation ok msgs))) = [ws_read []] /\
  session._buffer (session.obj (fst (session.execution sock (conversation ok msgs)))) = [].
Proof.
  intros Hok. rewrite execution_eq, start_eq. cbn [fst snd].
  unfold conversation, echo_trace. cbn [session.deliver_all].
  rewrite (deliver_handshake_ok _ ok Hok). cbn [session._buffer].
  match goal with
  | |- context [session.deliver_all (session.mk_cfg ?s [ws_read []]) _] =>
      destruct (echoes_from_reading ok msgs s Hok eq_refl) as (s' & -> & Hb & _)
  end.
  cbn [fst snd app session.pending session.obj].
  split; [reflexivity|]. split; [reflexivity|exact Hb].
Qed.

(** X3: throughout the life of a session, whatever completes and however,
    the stream keeps the socket the session was constructed over, the
    suggested server timeouts and the server field that [run()] has set. *)
Theorem session_settings_are_kept sock evs :
  configured sock (session.obj (fst (session.execution sock evs))).
Proof.
  rewrite execution_eq. cbn [fst].
  apply deliver_all_keeps_settings. rewrite start_eq.
  split; [reflexivity|]. split; reflexivity.
Qed.

End session_extras.

Lemma write_failure_ends_session_witness :
  In (ws_write ping true)
     (session.pending (fst (@session.execution sample_platform 5 sample_writing))) /\
  ec_failed connection_reset = true /\
  @session.deliver sample_platform
     (fst (@session.execution sample_platform 5 sample_writing))
     (session.write_done connection_reset 0)
    = (session.mk_cfg
         (session.obj (fst (@session.execution sample_platform 5 sample_writing))) [],
       [cerr (@log_line sample_platform "write" connection_reset)]).
Proof.
  assert (Hin : In (ws_write ping true)
                  (session.pending
                     (fst (@session.execution sample_platform 5 sample_writing))))
    by (left; reflexivity).
  split; [exact Hin|]. split; [reflexivity|].
  exact (@write_failure_ends_session sample_platform 5 sample_writing
           connection_reset 0 ping true Hin eq_refl).
Defined.

Lemma conversation_is_echoed_witness :
  ec_failed no_error = false /\
  snd (@session.execution sample_platform 5 (conversation no_error sample_messages))
    = echo_trace sample_messages /\
  session.pending
    (fst (@session.execution sample_platform 5 (conversation no_error sample_messages)))
    = [ws_read []] /\
  session._buffer
    (session.obj
       (fst (@session.execution sample_platform 5 (conversation no_error sample_messages))))
    = [].
Proof.
  split; [reflexivity|].
  exact (@conversation_is_echoed sample_platform 5 no_error sample_messages eq_refl).
Defined.

(** * Further properties of the listener and the process *)

Section process_steps.
Context `{Platform}.

Lemma deliver_from_handler c ev :
  forallb from_handler (snd (session.deliver c ev)) = true.
Proof.
  destruct ev as [ec|ec rcv b|ec n]; unfold session.deliver.
  - destruct (retire is_handshake _) as [rest|]; [|reflexivity].
    unfold session.invoke. destruct (ec_failed ec) eqn:Hec.
    + rewrite (on_accept_failure _ _ Hec). reflexivity.
    + rewrite (on_accept_success _ _ Hec). reflexivity.
  - destruct (retire is_read _) as [rest|]; [|reflexivity].
    unfold session.invoke.
    destruct (decide (ec = websocket_error_closed)) as [->|Hne].
    + rewrite on_read_closed. reflexivity.
    + destruct (ec_failed ec) eqn:Hec.
      * rewrite (on_read_failure _ _ _ Hne Hec). reflexivity.
      * rewrite (on_read_success _ _ _ Hec). reflexivity.
  - destruct (retire is_write _) as [rest|]; [|reflexivity].
    unfold session.invoke. destruct (ec_failed ec) eqn:Hec.
    + rewrite (on_write_failure _ _ _ Hec). reflexivity.
    + rewrite (on_write_success _ _ _ Hec). reflexivity.
Qed.

Lemma deliver_keeps_socket c ev :
  socket_of (fst (session.deliver c ev)) = socket_of c.
Proof.
  unfold socket_of.
  destruct ev as [ec|ec rcv b|ec n]; unfold session.deliver.
  - destruct (retire is_handshake _) as [rest|]; [|reflexivity].
    unfold session.invoke. destruct (ec_failed ec) eqn:Hec.
    + rewrite (on_accept_failure _ _ Hec). reflexivity.
    + rewrite (on_accept_success _ _ Hec). reflexivity.
  - destruct (retire is_read _) as [rest|]; [|reflexivity].
    unfold session.invoke.
    destruct (decide (ec = websocket_error_closed)) as [->|Hne].
    + rewrite on_read_closed. reflexivity.
    + destruct (ec_failed ec) eqn:Hec.
      * rewrite (on_read_failure _ _ _ Hne Hec). reflexivity.
      * rewrite (on_read_success _ _ _ Hec). reflexivity.
  - destruct (retire is_write _) as [rest|]; [|reflexivity].
    unfold session.invoke. destruct (ec_failed ec) eqn:Hec.
    + rewrite (on_write_failure _ _ _ Hec). reflexivity.
    + rewrite (on_write_success _ _ _ Hec). reflexivity.
Qed.

(** What a dispatch does to the sessions: an accept leaves them as they
    are or appends the session it starts; a session's completion replaces
    that session by what it has become. *)
Lemma dispatch_sessions w ev :
  match ev with
  | accept_done ec sock =>
      live_sessions (fst (dispatch w ev)) = live_sessions w \/
      (ec_failed ec = false /\
       live_sessions (fst (dispatch w ev))
         = live_sessions w ++ [fst (session.start sock)])
  | session_done i sev =>
      live_sessions (fst (dispatch w ev)) =
        match live_sessions w !! i with
        | Some c => <[i := fst (session.deliver c sev)]> (live_sessions w)
        | None => live_sessions w
        end
  end.
Proof.
  destruct ev as [ec sock|i sev]; unfold dispatch.
  - destruct (retire is_accept _) as [rest|]; [|left; reflexivity].
    unfold listener.invoke. destruct (ec_failed ec) eqn:Hec.
    + rewrite (listener_on_accept_failure _ _ _ Hec). left. reflexivity.
    + rewrite (listener_on_accept_success _ _ _ Hec). right.
      split; reflexivity.
  - destruct (live_sessions w !! i) as [c|]; [|reflexivity].
    destruct (session.deliver c sev) as [c' tr]. reflexivity.
Qed.

Lemma dispatch_from_handler w ev :
  forallb from_handler (snd (dispatch w ev)) = true.
Proof.
  destruct ev as [ec sock|i sev]; unfold dispatch.
  - destruct (retire is_accept _) as [rest|]; [|reflexivity].
    unfold listener.invoke. destruct (ec_failed ec) eqn:Hec.
    + rewrite (listener_on_accept_failure _ _ _ Hec). reflexivity.
    + rewrite (listener_on_accept_success _ _ _ Hec). reflexivity.
  - destruct (live_sessions w !! i) as [c|]; [|reflexivity].
    pose proof (deliver_from_handler c sev) as Hd.
    destruct (session.deliver c sev) as [c' tr]. exact Hd.
Qed.

Lemma dispatch_log_ok w ev : Forall log_entry_ok (snd (dispatch w ev)).
Proof.
  destruct ev as [ec sock|i sev]; unfold dispatch.
  - destruct (retire is_accept _) as [rest|]; [|constructor].
    unfold listener.invoke. destruct (ec_failed ec) eqn:Hec.
    + rewrite (listener_on_accept_failure _ _ _ Hec). cbn.
      constructor; [|repeat constructor].
      right. exists "accept", ec. split; [cbn; tauto|]. split; [exact Hec|reflexivity].
    + rewrite (listener_on_accept_success _ _ _ Hec). cbn. repeat constructor.
  - destruct (live_sessions w !! i) as [c|]; [|constructor].
    pose proof (deliver_log_ok c sev) as Hd.
    destruct (session.deliver c sev) as [c' tr]. exact Hd.
Qed.

(** The event loop, once an accept is outstanding: it never returns, and
    its result is the fold of [dispatch] over the completions. *)
Lemma ioc_run_cons w ev evs :
  listener.pending w = [tcp_accept] ->
  ioc_run w (ev :: evs) =
    (fst (fst (ioc_run (fst (dispatch w ev)) evs)),
     snd (dispatch w ev) ++ snd (fst (ioc_run (fst (dispatch w ev)) evs)),
     false).
Proof.
  intros Hp. cbn [ioc_run]. rewrite (accepting_has_work _ Hp).
  destruct (dispatch_keeps_accept w ev Hp) as [Hp1 _].
  destruct (dispatch w ev) as [w1 t1]. cbn [fst snd] in *.
  destruct (ioc_run_keeps_accepting evs w1 Hp1) as (w2 & t2 & -> & _).
  reflexivity.
Qed.

Lemma ioc_run_nil w :
  listener.pending w = [tcp_accept] -> ioc_run w [] = (w, [], false).
Proof. intros Hp. cbn [ioc_run]. rewrite (accepting_has_work _ Hp). reflexivity. Qed.

(** Induction over the event loop: what holds at the start and is kept by
    every dispatch holds after any completions. *)
Lemma ioc_run_invariant (P : listener.cfg -> Prop) :
  (forall w ev, listener.pending w = [tcp_accept] -> P w -> P (fst (dispatch w ev))) ->
  forall evs w, listener.pending w = [tcp_accept] -> P w ->
                P (fst (fst (ioc_run w evs))).
Proof.
  intros Hstep. induction evs as [|ev evs IH]; intros w Hp Hw.
  - rewrite (ioc_run_nil w Hp). exact Hw.
  - rewrite (ioc_run_cons w ev evs Hp). cbn [fst].
    apply IH; [apply dispatch_keeps_accept; exact Hp|apply Hstep; assumption].
Qed.

Lemma ioc_run_trace (Q : io -> Prop) :
  (forall w ev, Forall Q (snd (dispatch w ev))) ->
  forall evs w, listener.pending w = [tcp_accept] ->
                Forall Q (snd (fst (ioc_run w evs))).
Proof.
  intros Hstep. induction evs as [|ev evs IH]; intros w Hp.
  - rewrite (ioc_run_nil w Hp). constructor.
  - rewrite (ioc_run_cons w ev evs Hp). cbn [fst snd].
    apply Forall_app. split; [apply Hstep|].
    apply IH. apply dispatch_keeps_accept. exact Hp.
Qed.

(** [main] with four arguments and an address that parses, in terms of
    the event loop. *)
Lemma main_run argv env evs address :
  length argv = 4%nat ->
  make_address (arg argv 1) = Some address ->
  main argv env evs =
    (serving (fst (fst (ioc_run (startup_world argv env address) evs))),
     snd (listener.construct env
            (mk_ioc (Z.max 1 (atoi (arg argv 3))) [])
            (mk_endpoint address (to_unsigned_short (atoi (arg argv 2)))))
     ++ [initiate tcp_accept]
     ++ replicate (Z.to_nat (Z.max 1 (atoi (arg argv 3)) - 1)) thread_start
     ++ snd (fst (ioc_run (startup_world argv env address) evs))).
Proof.
  intros Hlen Haddr. unfold main, startup_world.
  rewrite Hlen, Haddr. cbn [Nat.eqb negb].
  destruct (listener.construct env _ _) as [l t1]. cbn [fst snd].
  change (listener.invoke listener.run l [])
    with (listener.mk_cfg l [tcp_accept], [initiate tcp_accept]).
  cbv beta iota zeta.
  destruct (ioc_run_keeps_accepting evs (listener.mk_cfg l [tcp_accept]) eq_refl)
    as (w' & tr & -> & _). reflexivity.
Qed.

End process_steps.

Section process_facts.
Context `{Platform}.

Lemma construct_state env ioc ep :
  fst (listener.construct env ioc ep) = listener.mk ioc (acceptor_after env ep).
Proof.
  unfold listener.construct, listener.setup, listener.on_acceptor, tcp.call,
    acceptor_after.
  run_act.
  case_outcome (tcp.open_ec env); [reflexivity|].
  case_outcome (tcp.set_option_ec env); [reflexivity|].
  case_outcome (tcp.bind_ec env); [reflexivity|].
  case_outcome (tcp.listen_ec env); reflexivity.
Qed.

Lemma started_threads_app t1 t2 :
  started_threads (t1 ++ t2) = (started_threads t1 + started_threads t2)%nat.
Proof. unfold started_threads. rewrite List.filter_app, length_app. reflexivity. Qed.

Lemma started_threads_replicate n :
  started_threads (replicate n thread_start) = n.
Proof.
  induction n as [|n IH]; [reflexivity|].
  cbn [replicate]. change (started_threads (thread_start :: ?l))
    with (S (started_threads l)). rewrite IH. reflexivity.
Qed.

Lemma started_threads_from_handler tr :
  Forall (fun e => from_handler e = true) tr -> started_threads tr = 0%nat.
Proof.
  induction 1 as [|e tr He _ IH]; [reflexivity|].
  destruct e; try discriminate He; exact IH.
Qed.

Lemma forallb_Forall_true {A} (f : A -> bool) l :
  forallb f l = true -> Forall (fun x => f x = true) l.
Proof.
  induction l as [|x l IH]; cbn [forallb]; intros Hl; [constructor|].
  apply andb_true_iff in Hl. destruct Hl as [Hx Hl].
  constructor; [exact Hx|exact (IH Hl)].
Qed.

Lemma construct_no_threads env ioc ep :
  started_threads (snd (listener.construct env ioc ep)) = 0%nat.
Proof.
  rewrite construct_trace.
  destruct (ec_failed (tcp.open_ec env)); [reflexivity|].
  destruct (ec_failed (tcp.set_option_ec env)); [reflexivity|].
  destruct (ec_failed (tcp.bind_ec env)); [reflexivity|].
  destruct (ec_failed (tcp.listen_ec env)); reflexivity.
Qed.

Lemma construct_log_ok env ioc ep :
  Forall log_entry_ok (snd (listener.construct env ioc ep)).
Proof.
  assert (Hlab : forall what ec, In what labels -> ec_failed ec = true ->
                                 log_entry_ok (cerr (log_line what ec))).
  { intros what ec Hin Hec. right. exists what, ec. auto. }
  rewrite construct_trace.
  destruct (ec_failed (tcp.open_ec env)) eqn:E1;
    [|destruct (ec_failed (tcp.set_option_ec env)) eqn:E2;
      [|destruct (ec_failed (tcp.bind_ec env)) eqn:E3;
        [|destruct (ec_failed (tcp.listen_ec env)) eqn:E4]]];
    cbn [setup_calls take app];
    repeat (apply Forall_cons; split; [exact I|]);
    try (apply Forall_cons; split; [apply Hlab; [cbn; tauto|assumption]|]);
    apply Forall_nil_2.
Qed.

Lemma accepted_accept ec sock evs :
  accepted (accept_done ec sock :: evs)
    = (if ec_failed ec then [] else [sock]) ++ accepted evs.
Proof. unfold accepted. cbn. destruct (ec_failed ec); reflexivity. Qed.

Lemma accepted_session i sev evs :
  accepted (session_done i sev :: evs) = accepted evs.
Proof. reflexivity. Qed.

Lemma accepted_sockets_run evs : forall w,
  listener.pending w = [tcp_accept] ->
  fmap socket_of (live_sessions (fst (fst (ioc_run w evs))))
    = fmap socket_of (live_sessions w) ++ accepted evs.
Proof.
  induction evs as [|ev evs IH]; intros w Hp.
  - rewrite (ioc_run_nil w Hp). cbn [fst]. rewrite app_nil_r. reflexivity.
  - rewrite (ioc_run_cons w ev evs Hp). cbn [fst].
    rewrite (IH _ (proj1 (dispatch_keeps_accept w ev Hp))).
    destruct ev as [ec sock|i sev].
    + rewrite (dispatch_accept w ec sock Hp), accepted_accept. cbn [fst].
      unfold live_sessions. cbn [listener.obj].
      destruct (ec_failed ec); [reflexivity|].
      unfold with_session. cbn [listener._ioc sessions].
      rewrite fmap_app, <- app_assoc. reflexivity.
    + pose proof (dispatch_sessions w (session_done i sev)) as Hs.
      cbv beta iota in Hs. rewrite Hs, accepted_session. f_equal.
      destruct (live_sessions w !! i) as [c|] eqn:Hi; [|reflexivity].
      rewrite list_fmap_insert, deliver_keeps_socket.
      apply list_insert_id. rewrite list_lookup_fmap, Hi. reflexivity.
Qed.

Lemma dispatch_well_formed w ev :
  listener.pending w = [tcp_accept] ->
  Forall well_formed (live_sessions w) ->
  Forall well_formed (live_sessions (fst (dispatch w ev))).
Proof.
  intros Hp Hw. pose proof (dispatch_sessions w ev) as Hs.
  destruct ev as [ec sock|i sev].
  - destruct Hs as [-> | [_ ->]]; [exact Hw|].
    apply Forall_app. split; [exact Hw|].
    apply Forall_cons. split; [|apply Forall_nil_2].
    exists Handshaking. apply start_phase.
  - rewrite Hs. destruct (live_sessions w !! i) as [c|] eqn:Hi; [|exact Hw].
    apply Forall_insert; [exact Hw|].
    apply deliver_step. exact (Forall_lookup_1 _ _ _ _ Hw Hi).
Qed.

End process_facts.

Section process_extras.
Context `{Platform}.

(** X4: the constructor makes the setup calls in the order open, set
    reuse-address, bind, listen, up to and including the first one that
    fails; it then reports that one failure and does nothing more.  When
    none fails it makes the four calls and writes nothing. *)
Theorem constructor_stops_at_first_failure env ioc ep :
  snd (listener.construct env ioc ep) =
    setup_calls ep (calls_made env) ++
    match first_failure env with
    | Some (what, ec) => [cerr (log_line what ec)]
    | None => []
    end.
Proof.
  rewrite construct_trace. unfold calls_made, first_failure.
  destruct (ec_failed (tcp.open_ec env)); [reflexivity|].
  destruct (ec_failed (tcp.set_option_ec env)); [reflexivity|].
  destruct (ec_failed (tcp.bind_ec env)); [reflexivity|].
  destruct (ec_failed (tcp.listen_ec env)); [reflexivity|].
  rewrite app_nil_r. reflexivity.
Qed.

(** X5: the constructor leaves the io_context as it was and the acceptor
    in the state the successful calls produce: open when open succeeded,
    with reuse-address when also that call succeeded, bound to the
    endpoint when also bind succeeded, listening when all four succeeded.
    So the acceptor listens exactly when no setup call failed. *)
Theorem constructor_leaves_acceptor env ioc ep :
  fst (listener.construct env ioc ep) = listener.mk ioc (acceptor_after env ep) /\
  (tcp.listening (listener._acceptor (fst (listener.construct env ioc ep))) = true
   <-> first_failure env = None).
Proof.
  rewrite construct_state. split; [reflexivity|].
  cbn [listener._acceptor]. unfold acceptor_after, first_failure.
  cbn [tcp.listening].
  destruct (ec_failed (tcp.open_ec env)); [cbn; split; discriminate|].
  destruct (ec_failed (tcp.set_option_ec env)); [cbn; split; discriminate|].
  destruct (ec_failed (tcp.bind_ec env)); [cbn; split; discriminate|].
  destruct (ec_failed (tcp.listen_ec env)); cbn; split; (discriminate || reflexivity).
Qed.

(** X6: [main] returns [EXIT_FAILURE] exactly when the argument count is
    not 4, and never returns [EXIT_SUCCESS]: with four arguments it either
    terminates on the address or stays in the event loop, whatever the
    setup calls report and whatever completes. *)
Theorem main_exit_status argv env evs :
  fst (main argv env evs) <> exited EXIT_SUCCESS /\
  (fst (main argv env evs) = exited EXIT_FAILURE <-> length argv <> 4%nat).
Proof.
  destruct (Nat.eqb_spec (length argv) 4) as [Hlen|Hlen].
  - destruct (make_address (arg argv 1)) as [address|] eqn:Haddr.
    + rewrite (main_run argv env evs address Hlen Haddr). cbn [fst].
      split; [discriminate|]. split; [discriminate|contradiction].
    + unfold main. rewrite Hlen, Haddr. cbn [Nat.eqb negb fst].
      split; [discriminate|]. split; [discriminate|contradiction].
  - unfold main. destruct (Nat.eqb_spec (length argv) 4) as [Heq|_]; [contradiction|].
    cbn [negb fst]. split; [discriminate|]. split; [intros _; exact Hlen|reflexivity].
Qed.

(** X7: with four arguments and an address that parses, [main] starts
    [max(1, atoi(argv[3])) - 1] threads besides its own, and no handler
    ever starts another; so for a thread count of 1 or less (zero,
    negative, not a number) no thread is started. *)
Theorem main_starts_threads argv env evs address :
  length argv = 4%nat ->
  make_address (arg argv 1) = Some address ->
  started_threads (snd (main argv env evs))
    = Z.to_nat (Z.max 1 (atoi (arg argv 3)) - 1) /\
  ((atoi (arg argv 3) <= 1)%Z -> started_threads (snd (main argv env evs)) = 0%nat).
Proof.
  intros Hlen Haddr.
  assert (Hn : started_threads (snd (main argv env evs))
               = Z.to_nat (Z.max 1 (atoi (arg argv 3)) - 1)).
  { rewrite (main_run argv env evs address Hlen Haddr). cbn [snd].
    rewrite !started_threads_app, construct_no_threads, started_threads_replicate.
    rewrite (started_threads_from_handler (snd (fst (ioc_run _ evs)))).
    - change (started_threads [initiate tcp_accept]) with 0%nat. lia.
    - apply (ioc_run_trace (fun e => from_handler e = true)); [|reflexivity].
      intros w ev. apply forallb_Forall_true, dispatch_from_handler. }
  split; [exact Hn|]. intros Hle. rewrite Hn. lia.
Qed.

(** X8: when no setup call fails, the acceptor is, at every point of the
    run, open, with reuse-address, listening, and bound to the address
    [argv[1]] parses to and the port [atoi(argv[2])] reduced modulo 65536,
    a number from 0 to 65535. *)
Theorem listener_endpoint argv env evs address :
  length argv = 4%nat ->
  make_address (arg argv 1) = Some address ->
  first_failure env = None ->
  exists w,
    fst (main argv env evs) = serving w /\
    listener._acceptor (listener.obj w)
      = tcp.mk_acceptor true true
          (Some (mk_endpoint address (atoi (arg argv 2) mod 65536)%Z)) true /\
    (0 <= atoi (arg argv 2) mod 65536 < 65536)%Z.
Proof.
  intros Hlen Haddr Hff.
  destruct (main_serving argv env evs address Hlen Haddr) as (w & tr & Hm & _ & Ha).
  exists w. split; [rewrite Hm; reflexivity|].
  split; [|apply Z.mod_pos_bound; lia].
  rewrite Ha, construct_state. cbn [listener._acceptor].
  unfold acceptor_after, first_failure in *.
  destruct (ec_failed (tcp.open_ec env)); [discriminate Hff|].
  destruct (ec_failed (tcp.set_option_ec env)); [discriminate Hff|].
  destruct (ec_failed (tcp.bind_ec env)); [discriminate Hff|].
  destruct (ec_failed (tcp.listen_ec env)); [discriminate Hff|].
  reflexivity.
Qed.

(** X9: at every point of the run the sessions of the process are, in
    order, one for each accept that completed successfully, each over the
    socket that accept delivered; a failed accept adds none, and no session
    is ever removed or given another socket. *)
Theorem one_session_per_accepted_socket argv env evs address :
  length argv = 4%nat ->
  make_address (arg argv 1) = Some address ->
  exists w,
    fst (main argv env evs) = serving w /\
    fmap socket_of (live_sessions w) = accepted evs.
Proof.
  intros Hlen Haddr. eexists. split.
  - rewrite (main_run argv env evs address Hlen Haddr). reflexivity.
  - rewrite (accepted_sockets_run evs (startup_world argv env address) eq_refl).
    unfold startup_world, live_sessions. cbn [listener.obj].
    rewrite construct_state. reflexivity.
Qed.

(** X10: at every point of the run every session of the process is in one
    of the four states of a session; in particular each has at most one
    operation outstanding. *)
Theorem every_session_is_sequential argv env evs address :
  length argv = 4%nat ->
  make_address (arg argv 1) = Some address ->
  exists w,
    fst (main argv env evs) = serving w /\
    Forall (fun c => well_formed c /\ (length (session.pending c) <= 1)%nat)
           (live_sessions w).
Proof.
  intros Hlen Haddr. eexists. split.
  - rewrite (main_run argv env evs address Hlen Haddr). reflexivity.
  - eapply Forall_impl.
    + apply (ioc_run_invariant (fun w => Forall well_formed (live_sessions w))).
      * intros w ev Hp Hw. apply dispatch_well_formed; assumption.
      * reflexivity.
      * unfold startup_world, live_sessions. cbn [listener.obj].
        rewrite construct_state. apply Forall_nil_2.
    + intros c Hc. split; [exact Hc|].
      destruct Hc as [p Hp]. destruct Hp; cbn; lia.
Qed.

(** X11: everything the program ever writes to [std::cerr] is the usage
    text or a line [label: message] for an error code that reports a
    failure, under one of the labels accept, read, write, open, set_option,
    bind, listen. *)
Theorem log_reports_failures_only argv env evs :
  Forall log_entry_ok (snd (main argv env evs)).
Proof.
  destruct (Nat.eqb_spec (length argv) 4) as [Hlen|Hlen].
  - destruct (make_address (arg argv 1)) as [address|] eqn:Haddr.
    + rewrite (main_run argv env evs address Hlen Haddr). cbn [snd].
      apply Forall_app. split; [apply construct_log_ok|].
      apply Forall_cons. split; [exact I|].
      apply Forall_app. split.
      * apply Forall_forall. intros e He.
        apply elem_of_replicate in He. destruct He as [-> _]. exact I.
      * apply (ioc_run_trace log_entry_ok); [|reflexivity].
        intros w ev. apply dispatch_log_ok.
    + unfold main. rewrite Hlen, Haddr. cbn [Nat.eqb negb snd]. apply Forall_nil_2.
  - unfold main. destruct (Nat.eqb_spec (length argv) 4) as [Heq|_]; [contradiction|].
    cbn [negb snd]. apply Forall_cons. split; [left; reflexivity|apply Forall_nil_2].
Qed.

End process_extras.

Lemma main_starts_threads_witness :
  length wide_argv = 4%nat /\
  @make_address sample_platform (arg wide_argv 1) = Some (ip_addr "0.0.0.0") /\
  started_threads (snd (@main sample_platform wide_argv all_succeed sample_completions))
    = 3%nat.
Proof.
  split; [reflexivity|]. split; [reflexivity|].
  exact (proj1 (@main_starts_threads sample_platform wide_argv all_succeed
                  sample_completions (ip_addr "0.0.0.0") eq_refl eq_refl)).
Defined.

Lemma listener_endpoint_witness :
  length wide_argv = 4%nat /\
  @make_address sample_platform (arg wide_argv 1) = Some (ip_addr "0.0.0.0") /\
  first_failure all_succeed = None /\
  exists w,
    fst (@main sample_platform wide_argv all_succeed sample_completions) = serving w /\
    listener._acceptor (listener.obj w)
      = tcp.mk_acceptor true true
          (Some (mk_endpoint (ip_addr "0.0.0.0") 4464%Z)) true /\
    (0 <= 4464 < 65536)%Z.
Proof.
  split; [reflexivity|]. split; [reflexivity|]. split; [reflexivity|].
  exact (@listener_endpoint sample_platform wide_argv all_succeed
           sample_completions (ip_addr "0.0.0.0") eq_refl eq_refl eq_refl).
Defined.

Lemma one_session_per_accepted_socket_witness :
  length wide_argv = 4%nat /\
  @make_address sample_platform (arg wide_argv 1) = Some (ip_addr "0.0.0.0") /\
  exists w,
    fst (@main sample_platform wide_argv all_succeed sample_completions) = serving w /\
    fmap socket_of (live_sessions w) = [5; 6]%nat.
Proof.
  split; [reflexivity|]. split; [reflexivity|].
  exact (@one_session_per_accepted_socket sample_platform wide_argv all_succeed
           sample_completions (ip_addr "0.0.0.0") eq_refl eq_refl).
Defined.

Lemma every_session_is_sequential_witness :
  length wide_argv = 4%nat /\
  @make_address sample_platform (arg wide_argv 1) = Some (ip_addr "0.0.0.0") /\
  exists w,
    fst (@main sample_platform wide_argv all_succeed sample_completions) = serving w /\
    Forall (fun c => well_formed c /\ (length (session.pending c) <= 1)%nat)
           (live_sessions w).
Proof.
  split; [reflexivity|]. split; [reflexivity|].
  exact (@every_session_is_sequential sample_platform wide_argv all_succeed
           sample_completions (ip_addr "0.0.0.0") eq_refl eq_refl).
Defined.

(** * Sessions in the process *)

Section session_in_process.
Context `{Platform}.

(** A session that exists goes through the completions addressed to it;
    accepts and the completions of other sessions make no difference. *)
Lemma existing_session_view evs : forall w i c,
  listener.pending w = [tcp_accept] ->
  live_sessions w !! i = Some c ->
  live_sessions (fst (fst (ioc_run w evs))) !! i =
    Some (fst (session.deliver_all c
                 (session_view i (length (live_sessions w)) evs))).
Proof.
  induction evs as [|ev evs IH]; intros w i c Hp Hi.
  - rewrite (ioc_run_nil w Hp). exact Hi.
  - rewrite (ioc_run_cons w ev evs Hp). cbn [fst].
    pose proof (proj1 (dispatch_keeps_accept w ev Hp)) as Hp1.
    pose proof (dispatch_sessions w ev) as Hs.
    destruct ev as [ec sock|j sev]; cbn [session_view].
    + rewrite (dispatch_accept w ec sock Hp) in Hs |- *. cbn [fst] in Hs |- *.
      rewrite (dispatch_accept w ec sock Hp) in Hp1. cbn [fst] in Hp1.
      destruct Hs as [Hs | [Hec Hs]].
      * destruct (ec_failed ec) eqn:Hec.
        -- rewrite (IH _ i c Hp1); [|rewrite Hs; exact Hi]. rewrite Hs. reflexivity.
        -- unfold live_sessions, with_session in Hs. cbn in Hs.
           apply (f_equal length) in Hs. rewrite length_app in Hs. cbn in Hs. lia.
      * rewrite Hec in *.
        rewrite (IH _ i c Hp1); [|rewrite Hs; apply lookup_app_l_Some; exact Hi].
        rewrite Hs, length_app. cbn [length]. rewrite Nat.add_1_r. reflexivity.
    + assert (Hlt : (i <? length (live_sessions w))%nat = true).
      { apply Nat.ltb_lt. eapply lookup_lt_Some. exact Hi. }
      rewrite Hlt, andb_true_r.
      destruct (Nat.eqb_spec j i) as [->|Hne].
      * rewrite Hi in Hs. cbn [session.deliver_all].
        destruct (session.deliver c sev) as [c1 t1] eqn:Hd. cbn [fst] in Hs.
        rewrite (IH _ i c1 Hp1).
        -- rewrite Hs, length_insert.
           destruct (session.deliver_all c1 _) as [c2 t2]. reflexivity.
        -- rewrite Hs. apply list_lookup_insert_eq. eapply lookup_lt_Some. exact Hi.
      * assert (Hi1 : live_sessions (fst (dispatch w (session_done j sev))) !! i = Some c).
        { rewrite Hs. destruct (live_sessions w !! j) as [cj|]; [|exact Hi].
          rewrite list_lookup_insert_ne; [exact Hi|exact Hne]. }
        rewrite (IH _ i c Hp1 Hi1). rewrite Hs.
        destruct (live_sessions w !! j) as [cj|]; [rewrite length_insert|]; reflexivity.
Qed.

(** A session created later starts from its construction and then goes
    through the completions addressed to it. *)
Lemma created_session_view evs : forall w i sock,
  listener.pending w = [tcp_accept] ->
  (length (live_sessions w) <= i)%nat ->
  accepted evs !! (i - length (live_sessions w))%nat = Some sock ->
  live_sessions (fst (fst (ioc_run w evs))) !! i =
    Some (fst (session.deliver_all (fst (session.start sock))
                 (session_view i (length (live_sessions w)) evs))).
Proof.
  induction evs as [|ev evs IH]; intros w i sock Hp Hle Hacc.
  - discriminate Hacc.
  - rewrite (ioc_run_cons w ev evs Hp). cbn [fst].
    pose proof (proj1 (dispatch_keeps_accept w ev Hp)) as Hp1.
    pose proof (dispatch_sessions w ev) as Hs.
    destruct ev as [ec sock'|j sev]; cbn [session_view].
    + rewrite accepted_accept in Hacc.
      rewrite (dispatch_accept w ec sock' Hp) in Hs, Hp1 |- *. cbn [fst] in Hs, Hp1 |- *.
      destruct (ec_failed ec) eqn:Hec.
      * assert (Hs' : live_sessions
                        (listener.mk_cfg (listener.obj w) [tcp_accept])
                      = live_sessions w) by reflexivity.
        rewrite (IH _ i sock Hp1); rewrite ?Hs'; [reflexivity|exact Hle|exact Hacc].
      * assert (Hs' : live_sessions
                        (listener.mk_cfg
                           (with_session (fst (session.start sock')) (listener.obj w))
                           [tcp_accept])
                      = live_sessions w ++ [fst (session.start sock')]) by reflexivity.
        destruct (decide (i = length (live_sessions w))) as [->|Hne].
        -- rewrite Nat.sub_diag in Hacc. cbn in Hacc. injection Hacc as ->.
           rewrite (existing_session_view evs _ (length (live_sessions w))
                      (fst (session.start sock)) Hp1).
           ++ rewrite Hs', length_app. cbn [length]. rewrite Nat.add_1_r. reflexivity.
           ++ rewrite Hs'. apply list_lookup_middle. reflexivity.
        -- rewrite (IH _ i sock Hp1); rewrite ?Hs', ?length_app; cbn [length].
           ++ rewrite Nat.add_1_r. reflexivity.
           ++ lia.
           ++ replace (i - (length (live_sessions w) + 1))%nat
                with (Nat.pred (i - length (live_sessions w))) by lia.
              destruct (i - length (live_sessions w))%nat as [|k] eqn:Hk; [lia|].
              exact Hacc.
    + rewrite accepted_session in Hacc.
      assert (Hnot : ((j =? i)%nat && (i <? length (live_sessions w))%nat) = false).
      { apply andb_false_iff. right. apply Nat.ltb_ge. exact Hle. }
      rewrite Hnot.
      assert (Hlen : length (live_sessions (fst (dispatch w (session_done j sev))))
                     = length (live_sessions w)).
      { rewrite Hs. destruct (live_sessions w !! j); [apply length_insert|reflexivity]. }
      rewrite (IH _ i sock Hp1); rewrite ?Hlen; [reflexivity|exact Hle|exact Hacc].
Qed.

(** X12: in the process every session goes through exactly what it would
    go through alone: the session created by the [i]-th successful accept,
    over the socket [sock] that accept delivered, is at every point of the
    run in the configuration that [session.execution] reaches from the
    completions addressed to it; the accepts and the completions of the
    other sessions, however interleaved, make no difference to it. *)
Theorem session_in_process_runs_alone argv env evs address i sock :
  length argv = 4%nat ->
  make_address (arg argv 1) = Some address ->
  accepted evs !! i = Some sock ->
  exists w,
    fst (main argv env evs) = serving w /\
    live_sessions w !! i
      = Some (fst (session.execution sock (session_view i 0 evs))).
Proof.
  intros Hlen Haddr Hacc. eexists. split.
  - rewrite (main_run argv env evs address Hlen Haddr). reflexivity.
  - assert (Hnil : live_sessions (startup_world argv env address) = []).
    { unfold startup_world, live_sessions. cbn [listener.obj].
      rewrite construct_state. reflexivity. }
    rewrite (created_session_view evs (startup_world argv env address) i sock eq_refl);
      rewrite ?Hnil; cbn [length].
    + rewrite execution_eq. reflexivity.
    + lia.
    + rewrite Nat.sub_0_r. exact Hacc.
Qed.

End session_in_process.

Lemma session_in_process_runs_alone_witness :
  length wide_argv = 4%nat /\
  @make_address sample_platform (arg wide_argv 1) = Some (ip_addr "0.0.0.0") /\
  accepted sample_completions !! 0%nat = Some 5%nat /\
  exists w,
    fst (@main sample_platform wide_argv all_succeed sample_completions) = serving w /\
    live_sessions w !! 0%nat
      = Some (fst (@session.execution sample_platform 5
                     (session_view 0 0 sample_completions))).
Proof.
  split; [reflexivity|]. split; [reflexivity|]. split; [reflexivity|].
  exact (@session_in_process_runs_alone sample_platform wide_argv all_succeed
           sample_completions (ip_addr "0.0.0.0") 0 5 eq_refl eq_refl eq_refl).
Defined.
